(** * Timing a call in C++: the scope timer and the [timeit] wrapper

  A shallow embedding of [timing_practice.cpp].  The program reads a clock,
  sleeps, prints to [std::cout] and calls user callables that may throw, so
  its functions are written in a small state-and-exception monad over a
  [World] that holds the clock, whether the operating system can serve it,
  the scheduler's lateness and the text written to [std::cout].  The wrapper
  is a template over the callable's return type; a type class tells an
  object type from a reference type, for which [auto] and [decltype] differ.

  The arithmetic of [<chrono>] is the one the C++ standard fixes for
  [duration_cast]: the tick count is converted to the floating-point
  representation of the target duration, divided or multiplied by the ratio of
  the two periods, and converted back to a 64-bit integer by truncation.  The
  scope timer stores a [duration<float>], the wrapper a [duration<double>];
  both are modelled bit-exactly with the IEEE 754 operations of [SpecFloat]
  (round to nearest, ties to even).  The clock ticks in nanoseconds and its
  representation is a signed 64-bit integer, as in libstdc++ and libc++. *)

From Stdlib Require Import ZArith List String Ascii Bool Lia.
From Stdlib Require Import Reals Lra.
From Stdlib Require Import Floats.SpecFloat DecimalString.

Local Open Scope string_scope.
Local Open Scope Z_scope.

(** ** The part of [<chrono>] the program uses *)

Module Chrono.

Definition int64_min : Z := - 2 ^ 63.
Definition int64_max : Z := 2 ^ 63 - 1.

(** Two's-complement wrap-around of a 64-bit signed integer. *)
Definition wrap64 (z : Z) : Z := (z + 2 ^ 63) mod 2 ^ 64 - 2 ^ 63.

(** [std::ratio] denominators: [high_resolution_clock::period] is
    [std::nano], [std::chrono::milliseconds::period] is [std::milli]. *)
Definition nano_den : Z := 1000000000.
Definition milli_den : Z := 1000.

(** A binary floating-point format: mantissa bits (with the implicit one)
    and the exponent of the infinities. *)
Record fp_format : Set := { prec : Z; emax : Z }.

Definition binary32 : fp_format := {| prec := 24; emax := 128 |}.
Definition binary64 : fp_format := {| prec := 53; emax := 1024 |}.

(** [static_cast<float>(n)] and [static_cast<double>(n)] for a 64-bit [n]. *)
Definition of_int64 (f : fp_format) (n : Z) : spec_float :=
  binary_normalize (prec f) (emax f) n 0 false.

(** [static_cast<long long>(x)]: the fractional part is discarded.  The
    conversion is undefined in C++ when the truncated value does not fit;
    x86-64 then yields the "integer indefinite" value [int64_min], which is
    what the model returns.  [fp_milliseconds_defined] below shows the program
    never gets there. *)
Definition to_int64 (x : spec_float) : Z :=
  match x with
  | S754_zero _ => 0
  | S754_finite s m e =>
      let v := cond_Zopp s (Z.shiftl (Zpos m) e) in
      if (int64_min <=? v) && (v <=? int64_max) then v else int64_min
  | S754_infinity _ | S754_nan => int64_min
  end.

Definition fdiv (f : fp_format) := SFdiv (prec f) (emax f).
Definition fmul (f : fp_format) := SFmul (prec f) (emax f).

(** [duration<FP> d = end - start;] is the converting constructor, that is
    [duration_cast<duration<FP>>] from nanosecond ticks: the conversion
    factor is 1/10^9, so the count is [CR(ticks) / CR(10^9)] with [CR] the
    floating-point type. *)
Definition seconds_of_ticks (f : fp_format) (ticks : Z) : spec_float :=
  fdiv f (of_int64 f ticks) (of_int64 f nano_den).

(** [duration_cast<milliseconds>(d)] from floating-point seconds: the
    conversion factor is 1000/1, so the count is
    [static_cast<long long>(CR(d) * CR(1000))]. *)
Definition milliseconds_of_seconds (f : fp_format) (d : spec_float) : Z :=
  to_int64 (fmul f d (of_int64 f milli_den)).

(** The floating-point number of milliseconds, before the final cast. *)
Definition fp_milliseconds (f : fp_format) (ticks : Z) : spec_float :=
  fmul f (seconds_of_ticks f ticks) (of_int64 f milli_den).

(** What the program prints for a given difference of clock readings. *)
Definition ms_of_ticks (f : fp_format) (ticks : Z) : Z :=
  milliseconds_of_seconds f (seconds_of_ticks f ticks).

(** [end - start] on two [time_point]s: 64-bit subtraction of the counts. *)
Definition elapsed (start end_ : Z) : Z := wrap64 (end_ - start).

End Chrono.

(** ** The world the program runs in *)

(** [clock] is what the next reading of the clock returns, in nanosecond
    ticks.  [clock_available] tells whether the operating system can serve
    the clock: when it can, [clock] is the time; when it cannot, [clock] is
    what the unset [timespec] of the next reading happens to hold, and
    [unset] lists what the ones after it will hold.  The program cannot tell
    the two apart: [now()] is [noexcept] and returns a [time_point] whatever
    happened.  [oversleep] lists by how many ticks each coming [sleep_for]
    wakes up late, and [cout] is the text written to standard output so far. *)
Record World : Type := World_of {
  clock : Z;
  clock_available : bool;
  oversleep : list N;
  cout : string;
  unset : list Z
}.

(** A world with nothing unset to read. *)
Definition mkWorld (c : Z) (a : bool) (o : list N) (s : string) : World :=
  World_of c a o s nil.

Definition write (s : string) (w : World) : World :=
  {| clock := clock w; clock_available := clock_available w;
     oversleep := oversleep w; cout := cout w ++ s; unset := unset w |}.

Definition endl : string := String (ascii_of_nat 10) EmptyString.

(** [operator<<] on a [long long]: decimal digits, with a minus sign if
  negative. *)
Definition show_int64 (z : Z) : string := NilZero.string_of_int (Z.to_int z).

Definition report_line (ms : Z) : string :=
"function took " ++ show_int64 ms ++ " ms" ++ endl.

(** ** What a call hands back *)

(** The object an lvalue reference is bound to: one that outlives the call
    of the wrapper, or the wrapper's own local [result], whose lifetime ends
    when the wrapper returns. *)
Inductive object : Set :=
| Caller_object (id : nat)
| Result_local.

(** A value of type [T&]: the object it is bound to and what that object
    holds (for an object whose lifetime has ended, what it held last). *)
Record lvalue_ref (T : Type) : Type := Ref {
  bound_to : object;
  held : T
}.
Arguments Ref {T} bound_to held.
Arguments bound_to {T} l.
Arguments held {T} l.

(** A declared return type [D = decltype(func(args...))] of the wrapper:
    [decayed] is the type [auto] deduces for the local in
    [auto result = func(args...);], [copy_init] is that initialisation, and
    [return_local] is what [return result;] hands back at type [D]. *)
Class ReturnType (D : Type) : Type := {
  decayed : Type;
  copy_init : D -> decayed;
  return_local : decayed -> D
}.

(** An object type [R]: the local has the same type, and is returned by
    value. *)
#[global]
Instance returns_object (R : Type) : ReturnType R | 100 := {|
  decayed := R;
  copy_init := fun r => r;
  return_local := fun r => r
|}.

(** An lvalue reference type [T&]: [auto] drops the reference and copies the
    referent into the local, and [return result;] binds the returned
    reference to that local. *)
#[global]
Instance returns_lvalue_ref (T : Type) : ReturnType (lvalue_ref T) | 0 := {|
  decayed := T;
  copy_init := fun r => held r;
  return_local := fun v => Ref Result_local v
|}.

(** ** Effects: state passing with C++ exceptions *)

Section Effects.

(** The type of the values a callable may throw. *)
Context {exn : Type}.

Inductive outcome (A : Type) : Type :=
| Returned (a : A)
| Raised (e : exn).
Arguments Returned {A} a.
Arguments Raised {A} e.

Definition M (A : Type) : Type := World -> outcome A * World.

Definition ret {A} (a : A) : M A := fun w => (Returned a, w).

Definition throw {A} (e : exn) : M A := fun w => (Raised e, w).

(** Sequencing: an exception skips the rest of the block; what was already
    done to the world stays done. *)
Definition bind {A B} (c : M A) (k : A -> M B) : M B :=
  fun w =>
    match c w with
    | (Returned a, w1) => k a w1
    | (Raised e, w1) => (Raised e, w1)
    end.

Notation "x <- c ;; k" := (bind c (fun x => k))
  (at level 61, c at next level, right associativity).
Notation "c ;; k" := (bind c (fun _ => k))
  (at level 61, right associativity).

(** [clock_gettime(CLOCK_REALTIME, &tp)] on a [timespec tp] that was not
    initialised: the return code (0, or -1 when the clock cannot be served)
    and what [tp] holds afterwards, in ticks. *)
Definition clock_gettime : M (Z * Z) :=
  fun w => (Returned (if clock_available w then 0 else -1, clock w), w).

(** [std::chrono::high_resolution_clock::now()], which the library declares
    [noexcept]: the return code of [clock_gettime] is dropped, and [tp] is
    made into a [time_point] of 64-bit ticks whatever it holds. *)
Definition now : M Z :=
  tp <- clock_gettime ;;
  ret (Chrono.wrap64 (snd tp)).

(** [std::cout << s]. *)
Definition cout_put (s : string) : M unit := fun w => (Returned tt, write s w).

(** [std::this_thread::sleep_for(d)]: returns at once when [d] is not
    positive, and otherwise blocks for at least [d] ticks, using up one
    wake-up.  When the clock cannot be served, the time that went by does not
    show in the next reading: that reading is what the next unset [timespec]
    holds, the head of [unset], or the same content again when [unset] is
    empty. *)
Definition sleep_for (d : Z) : M unit :=
  fun w =>
    if d <=? 0 then (Returned tt, w)
    else
      (Returned tt,
       {| clock := if clock_available w
                   then clock w + d + Z.of_N (hd 0%N (oversleep w))
                   else hd (clock w) (unset w);
          clock_available := clock_available w;
          oversleep := tl (oversleep w);
          cout := cout w;
          unset := if clock_available w then unset w else tl (unset w) |}).

(** *** The scope timer *)

Record Timing : Type := mkTiming {
  start : Z;
  end_ : Z;
  duration : spec_float
}.

(** [Timing()]: only [start] is assigned; [end] is a value-initialised
    [time_point] and [duration] is not read before the destructor assigns
    it. *)
Definition Timing_ctor : M Timing :=
  t <- now ;;
  ret {| start := t; end_ := 0; duration := S754_zero false |}.

(** [~Timing()]; the result is the object as the destructor leaves it. *)
Definition Timing_dtor (this : Timing) : M Timing :=
  e <- now ;;
  let d := Chrono.seconds_of_ticks Chrono.binary32 (Chrono.elapsed (start this) e) in
  let milliseconds := Chrono.milliseconds_of_seconds Chrono.binary32 d in
  cout_put "function took " ;;
  cout_put (show_int64 milliseconds) ;;
  cout_put " ms" ;;
  cout_put endl ;;
  ret {| start := start this; end_ := e; duration := d |}.

(** A block that declares [Timing timing;] first and then runs [body]: the
    destructor runs when control leaves the block, by a return or by an
    exception that unwinds through it. *)
Definition with_Timing {A} (body : M A) : M A :=
  fun w =>
    match Timing_ctor w with
    | (Returned timing, w0) =>
        let (r, w1) := body w0 in
        match Timing_dtor timing w1 with
        | (Returned _, w2) => (r, w2)
        | (Raised e, w2) => (Raised e, w2)
        end
    | (Raised e, w0) => (Raised e, w0)
    end.

(** *** The timing wrapper *)

(** The overload chosen when [func(args...)] has type [void]. *)
Definition timeit_void {Args} (func : Args -> M unit) (args : Args) : M unit :=
  start <- now ;;
  func args ;;
  end_ <- now ;;
  let duration := Chrono.seconds_of_ticks Chrono.binary64 (Chrono.elapsed start end_) in
  let milliseconds := Chrono.milliseconds_of_seconds Chrono.binary64 duration in
  cout_put "function took " ;;
  cout_put (show_int64 milliseconds) ;;
  cout_put " ms" ;;
  cout_put endl.

(** The overload chosen otherwise, at declared return type [D]; it stages
    the result in a local. *)
Definition timeit {Args D} {RT : ReturnType D} (func : Args -> M D) (args : Args) : M D :=
  start <- now ;;
  call <- func args ;;
  let result := copy_init call in
  end_ <- now ;;
  let duration := Chrono.seconds_of_ticks Chrono.binary64 (Chrono.elapsed start end_) in
  let milliseconds := Chrono.milliseconds_of_seconds Chrono.binary64 duration in
  cout_put "function took " ;;
  cout_put (show_int64 milliseconds) ;;
  cout_put " ms" ;;
  cout_put endl ;;
  ret (return_local result).

(** *** The mock workloads and [main] *)

(** [1s], in ticks of the clock. *)
Definition one_second : Z := 1 * Chrono.nano_den.

Definition mockDatabaseCall : M unit :=
  with_Timing
    (cout_put "Starting the mock database call" ;; cout_put endl ;;
     sleep_for one_second ;;
     cout_put "Ending the mock database call" ;; cout_put endl ;;
     ret tt).

Definition anotherMockDatabaseCall : M unit :=
  cout_put "Starting the mock database call" ;; cout_put endl ;;
  sleep_for one_second ;;
  cout_put "Ending the mock database call" ;; cout_put endl ;;
  ret tt.

Definition yetAnotherMockDatabaseCall : M Z :=
  cout_put "Starting the mock database call" ;; cout_put endl ;;
  sleep_for one_second ;;
  cout_put "Ending the mock database call" ;; cout_put endl ;;
  ret 10.

Definition main : M Z :=
  mockDatabaseCall ;;
  timeit_void (fun _ : unit => anotherMockDatabaseCall) tt ;;
  timeit (fun _ : unit => yetAnotherMockDatabaseCall) tt ;;
  ret 0.

End Effects.

Arguments outcome exn A : clear implicits.
Arguments M exn A : clear implicits.
Arguments Returned {exn A} a.
Arguments Raised {exn A} e.

Notation "x <- c ;; k" := (bind c (fun x => k))
  (at level 61, c at next level, right associativity).
Notation "c ;; k" := (bind c (fun _ => k))
  (at level 61, right associativity).

(** The number the scope timer prints when it is constructed in world [w]
    and destroyed in world [w1], and the number the wrapper prints when
    the callable takes the world from [w] to [w1]. *)
Definition timer_report (w w1 : World) : Z :=
  Chrono.ms_of_ticks Chrono.binary32 (Chrono.wrap64 (clock w1 - clock w)).

Definition wrapper_report (w w1 : World) : Z :=
  Chrono.ms_of_ticks Chrono.binary64 (Chrono.wrap64 (clock w1 - clock w)).

(** The floating-point numbers of milliseconds they are truncated from. *)
Definition timer_fp_ms (w w1 : World) : spec_float :=
  Chrono.fp_milliseconds Chrono.binary32 (Chrono.wrap64 (clock w1 - clock w)).

Definition wrapper_fp_ms (w w1 : World) : spec_float :=
  Chrono.fp_milliseconds Chrono.binary64 (Chrono.wrap64 (clock w1 - clock w)).

(** A world just started: the clock at its epoch, nothing printed, every
    sleep waking up on time. *)
Definition boot : World := mkWorld 0 true nil "".

(** A callable that blocks for [d] ticks and returns nothing. *)
Definition blocks_for {exn : Type} (d : Z) : unit -> M exn unit :=
  fun _ => sleep_for d.

(** A callable that prints and then throws. *)
Definition failing_call : unit -> M nat Z :=
  fun _ => cout_put "about to fail" ;; throw 7%nat.

(** A callable during which the system clock is set: it is stepped by [d]
    ticks, backward when [d] is negative. *)
Definition adjust_clock {exn : Type} (d : Z) : unit -> M exn unit :=
  fun _ w =>
    (Returned tt,
     {| clock := clock w + d; clock_available := clock_available w;
        oversleep := oversleep w; cout := cout w; unset := unset w |}).

(** A callable of return type [int&]: it returns a reference to an [int] of
    static storage duration, object number 0 of the caller's, that holds
    10. *)
Definition static_cell : unit -> M nat (lvalue_ref Z) :=
  fun _ => ret (Ref (Caller_object 0) 10).

(** The object the reference is bound to is one whose lifetime has ended
    when the caller of the wrapper receives the reference. *)
Definition dangling {T} (r : lvalue_ref T) : bool :=
  match bound_to r with
  | Result_local => true
  | Caller_object _ => false
  end.

(** By how many ticks the [i]-th coming [sleep_for] of world [w] wakes up
    late. *)
Definition late (w : World) (i : nat) : Z := Z.of_N (nth i (oversleep w) 0%N).

(** The two messages every mock workload prints. *)
Definition mock_messages : string :=
  "Starting the mock database call" ++ endl ++ "Ending the mock database call" ++ endl.

(** ** Reading floating-point values as real numbers *)

Definition bpow (e : Z) : R := powerRZ 2 e.

(** The real number [m * 2^e]. *)
Definition F2R (m e : Z) : R := (IZR m * bpow e)%R.

Definition fp_abs (x : spec_float) : R :=
  match x with
  | S754_finite _ m e => F2R (Zpos m) e
  | _ => 0%R
  end.

Definition fp_sign (x : spec_float) : bool :=
  match x with
  | S754_finite s _ _ | S754_zero s | S754_infinity s => s
  | S754_nan => false
  end.

(** The real number a zero or finite floating-point value stands for. *)
Definition fp_value (x : spec_float) : R :=
  if fp_sign x then (- fp_abs x)%R else fp_abs x.

(** [n] is [v] with its fractional part discarded (rounding toward zero). *)
Definition truncates_to (v : R) (n : Z) : Prop :=
  ((0 <= v)%R -> (IZR n <= v < IZR n + 1)%R) /\
  ((v <= 0)%R -> (IZR n - 1 < v <= IZR n)%R).

(** The conversion of [x] to a 64-bit integer is defined in C++: [x] is zero
    or finite and its integer part fits. *)
Definition to_int64_defined (x : spec_float) : Prop :=
  match x with
  | S754_zero _ => True
  | S754_finite s m e =>
      Chrono.int64_min <= cond_Zopp s (Z.shiftl (Zpos m) e) <= Chrono.int64_max
  | S754_infinity _ | S754_nan => False
  end.

(** By how many bits [shr_fexp] shifts a mantissa to the right. *)
Definition shr_amount (prec emax m e : Z) : Z :=
  Z.max 0 (fexp prec emax (Zdigits2 m + e) - e).

(** A positive number that the format holds exactly. *)
Definition representable_in (prec emax cm ce : Z) : Prop :=
  0 < cm <= 2 ^ prec /\ emin prec emax <= ce.

(** Sign and magnitude of a value that is zero or finite. *)
Definition fp_within (lo hi : R) (s : bool) (x : spec_float) : Prop :=
  match x with
  | S754_zero s' => s' = s /\ (lo <= 0)%R
  | S754_finite s' m e => s' = s /\ (lo <= F2R (Zpos m) e <= hi)%R
  | S754_infinity _ | S754_nan => False
  end.

(** ** Powers of two and the value of a mantissa-exponent pair *)

Lemma bpow_gt_0 e : (0 < bpow e)%R.
Proof. apply powerRZ_lt; lra. Qed.

Lemma bpow_add a b : bpow (a + b) = (bpow a * bpow b)%R.
Proof. apply powerRZ_add; lra. Qed.

Lemma bpow_Zpow k : 0 <= k -> bpow k = IZR (2 ^ k).
Proof.
  intros Hk. unfold bpow.
  rewrite <- (Z2Nat.id k Hk) at 1.
  rewrite <- pow_powerRZ, pow_IZR, Z2Nat.id by exact Hk. reflexivity.
Qed.

Lemma bpow_le a b : a <= b -> (bpow a <= bpow b)%R.
Proof.
  intros H. replace b with (a + (b - a)) by lia.
  rewrite bpow_add, (bpow_Zpow (b - a)) by lia.
  assert (H0 : 1 <= 2 ^ (b - a)) by (apply Z.lt_pred_le, Z.pow_pos_nonneg; lia).
  apply IZR_le in H0. pose proof (bpow_gt_0 a). nra.
Qed.

Lemma bpow_lt_inv a b : (bpow a < bpow b)%R -> a < b.
Proof.
  intros H. destruct (Z_lt_le_dec a b) as [Hl | Hl]; [exact Hl|].
  apply bpow_le in Hl. lra.
Qed.

Lemma digits2_pos_bounds p :
  2 ^ (Zpos (digits2_pos p) - 1) <= Zpos p < 2 ^ Zpos (digits2_pos p).
Proof.
  induction p as [p IH | p IH |]; simpl digits2_pos.
  - rewrite Pos2Z.inj_succ.
    replace (Z.succ (Zpos (digits2_pos p)) - 1) with (Z.succ (Zpos (digits2_pos p) - 1)) by lia.
    rewrite !Z.pow_succ_r by lia. lia.
  - rewrite Pos2Z.inj_succ.
    replace (Z.succ (Zpos (digits2_pos p)) - 1) with (Z.succ (Zpos (digits2_pos p) - 1)) by lia.
    rewrite !Z.pow_succ_r by lia. lia.
  - simpl. lia.
Qed.

Lemma shr_1_m mrs : 0 <= shr_m mrs -> shr_m (shr_1 mrs) = shr_m mrs / 2.
Proof.
  destruct mrs as [m r s]; cbn [shr_m]. intros Hm.
  destruct m as [| [p | p |] | p]; cbn [shr_1 shr_m];
    try reflexivity; try lia.
  - apply Z.div_unique with 1; lia.
  - apply Z.div_unique with 0; lia.
Qed.

Lemma shr_1_m_nonneg mrs : 0 <= shr_m mrs -> 0 <= shr_m (shr_1 mrs).
Proof. intros H. rewrite shr_1_m by exact H. apply Z.div_pos; lia. Qed.

Lemma pow2_xO p : 2 ^ Zpos p~0 = 2 ^ Zpos p * 2 ^ Zpos p.
Proof. rewrite <- Z.pow_add_r by lia. f_equal. lia. Qed.

Lemma pow2_xI p : 2 ^ Zpos p~1 = 2 * (2 ^ Zpos p * 2 ^ Zpos p).
Proof.
  rewrite <- Z.pow_add_r by lia.
  rewrite <- (Z.pow_succ_r 2 (Zpos p + Zpos p)) by lia. f_equal. lia.
Qed.

Lemma iter_shr_1_m p :
  forall mrs, 0 <= shr_m mrs ->
    shr_m (iter_pos shr_1 p mrs) = shr_m mrs / 2 ^ Zpos p.
Proof.
  induction p as [p IH | p IH |]; intros mrs Hm; simpl iter_pos.
  - assert (H1 : 0 <= shr_m (shr_1 mrs)) by (apply shr_1_m_nonneg; exact Hm).
    assert (H2 : 0 <= shr_m (iter_pos shr_1 p (shr_1 mrs))).
    { rewrite IH by exact H1. apply Z.div_pos; lia. }
    rewrite IH, IH, shr_1_m by assumption.
    rewrite !Z.div_div by lia. rewrite pow2_xI. reflexivity.
  - assert (H2 : 0 <= shr_m (iter_pos shr_1 p mrs)).
    { rewrite IH by exact Hm. apply Z.div_pos; lia. }
    rewrite IH, IH by assumption.
    rewrite !Z.div_div by lia. rewrite pow2_xO. reflexivity.
  - rewrite shr_1_m by exact Hm. reflexivity.
Qed.

Lemma F2R_change_exp a x y : y <= x -> F2R a x = F2R (a * 2 ^ (x - y)) y.
Proof.
  intros H. unfold F2R. rewrite mult_IZR, <- bpow_Zpow by lia.
  rewrite Rmult_assoc, <- bpow_add. do 2 f_equal. lia.
Qed.

Lemma F2R_le_compat a b e : a <= b -> (F2R a e <= F2R b e)%R.
Proof.
  intros H. unfold F2R. apply Rmult_le_compat_r.
  - apply Rlt_le, bpow_gt_0.
  - apply IZR_le, H.
Qed.

Lemma F2R_le_inv a b e : (F2R a e <= F2R b e)%R -> a <= b.
Proof.
  unfold F2R. intros H. apply le_IZR.
  apply Rmult_le_reg_r with (bpow e); [apply bpow_gt_0 | exact H].
Qed.

Lemma F2R_lt_compat a b e : a < b -> (F2R a e < F2R b e)%R.
Proof.
  intros H. unfold F2R. apply Rmult_lt_compat_r.
  - apply bpow_gt_0.
  - apply IZR_lt, H.
Qed.

Lemma F2R_ge_0 a e : 0 <= a -> (0 <= F2R a e)%R.
Proof.
  intros H. unfold F2R. apply Rmult_le_pos; [apply IZR_le, H | apply Rlt_le, bpow_gt_0].
Qed.

Lemma F2R_1 e : F2R 1 e = bpow e.
Proof. unfold F2R. lra. Qed.

Lemma F2R_shift_le M E k : 0 <= M -> 0 <= k -> (F2R (M / 2 ^ k) (E + k) <= F2R M E)%R.
Proof.
  intros HM Hk. rewrite (F2R_change_exp _ (E + k) E) by lia.
  apply F2R_le_compat. replace (E + k - E) with k by lia.
  rewrite Z.mul_comm. apply Z.mul_div_le. apply Z.pow_pos_nonneg; lia.
Qed.

Lemma F2R_shift_gt M E k : 0 <= M -> 0 <= k -> (F2R M E < F2R (M / 2 ^ k + 1) (E + k))%R.
Proof.
  intros HM Hk. rewrite (F2R_change_exp _ (E + k) E) by lia.
  apply F2R_lt_compat. replace (E + k - E) with k by lia.
  assert (H2 : 0 < 2 ^ k) by (apply Z.pow_pos_nonneg; lia).
  pose proof (Z.mul_succ_div_gt M (2 ^ k) H2). lia.
Qed.

Lemma F2R_pos_ge_bpow m e : (bpow (Zpos (digits2_pos m) - 1 + e) <= F2R (Zpos m) e)%R.
Proof.
  rewrite <- F2R_1. rewrite (F2R_change_exp 1 _ e) by lia.
  apply F2R_le_compat.
  replace (Zpos (digits2_pos m) - 1 + e - e) with (Zpos (digits2_pos m) - 1) by lia.
  pose proof (digits2_pos_bounds m). lia.
Qed.

Lemma F2R_pos_lt_bpow m e : (F2R (Zpos m) e < bpow (Zpos (digits2_pos m) + e))%R.
Proof.
  rewrite <- (F2R_1 (_ + e)). rewrite (F2R_change_exp 1 _ e) by lia.
  apply F2R_lt_compat.
  replace (Zpos (digits2_pos m) + e - e) with (Zpos (digits2_pos m)) by lia.
  pose proof (digits2_pos_bounds m). lia.
Qed.

Lemma F2R_mul a x b y : (F2R a x * F2R b y)%R = F2R (a * b) (x + y).
Proof. unfold F2R. rewrite mult_IZR, bpow_add. ring. Qed.

Lemma F2R_pos_gt_0 m e : (0 < F2R (Zpos m) e)%R.
Proof.
  replace 0%R with (F2R 0 e) by (unfold F2R; lra). apply F2R_lt_compat. lia.
Qed.

Section Rounding.

Variables prec emax : Z.
Hypothesis prec_gt_0 : 0 < prec.

Abbreviation emin := (SpecFloat.emin prec emax).
Abbreviation fexp := (SpecFloat.fexp prec emax).
Abbreviation shift_of := (shr_amount prec emax).
Abbreviation representable := (representable_in prec emax).


Lemma shift_of_nonneg m e : 0 <= shift_of m e.
Proof. unfold shr_amount. lia. Qed.

Lemma shr_m_of_loc m l : shr_m (shr_record_of_loc m l) = m.
Proof. destruct l as [| []]; reflexivity. Qed.

Lemma shr_fexp_spec m e l :
  0 <= m ->
  shr_m (fst (shr_fexp prec emax m e l)) = m / 2 ^ shift_of m e /\
  snd (shr_fexp prec emax m e l) = e + shift_of m e.
Proof.
  intros Hm. unfold shr_fexp, shr, shift_of.
  destruct (fexp (Zdigits2 m + e) - e) as [| p | p] eqn:Hk; cbn [fst snd].
  - rewrite shr_m_of_loc, Z.div_1_r. split; [reflexivity | lia].
  - rewrite iter_shr_1_m by (rewrite shr_m_of_loc; exact Hm).
    rewrite shr_m_of_loc. replace (Z.max 0 (Zpos p)) with (Zpos p) by lia.
    split; reflexivity.
  - rewrite shr_m_of_loc. replace (Z.max 0 (Zneg p)) with 0 by lia.
    rewrite Z.div_1_r. split; [reflexivity | lia].
Qed.

Lemma round_nearest_even_bounds m l :
  m <= round_nearest_even m l <= m + 1.
Proof.
  destruct l as [| []]; cbn [round_nearest_even]; try lia.
  destruct (Z.even m); lia.
Qed.

(** What [binary_round_aux] computes, up to the choice of the rounding
    direction: shift, add zero or one, shift again. *)
Lemma binary_round_aux_shape sx mx ex lx :
  0 <= mx ->
  exists m2,
    mx / 2 ^ shift_of mx ex <= m2 <= mx / 2 ^ shift_of mx ex + 1 /\
    binary_round_aux prec emax sx mx ex lx =
      match m2 / 2 ^ shift_of m2 (ex + shift_of mx ex) with
      | Z0 => S754_zero sx
      | Zpos m =>
          if ex + shift_of mx ex + shift_of m2 (ex + shift_of mx ex) <=? emax - prec
          then S754_finite sx m (ex + shift_of mx ex + shift_of m2 (ex + shift_of mx ex))
          else S754_infinity sx
      | Zneg _ => S754_nan
      end.
Proof.
  intros Hm. unfold binary_round_aux.
  pose proof (shr_fexp_spec mx ex lx Hm) as [H1 H2].
  destruct (shr_fexp prec emax mx ex lx) as [mrs1 e1]. cbn [fst snd] in H1, H2.
  set (m2 := round_nearest_even (shr_m mrs1) (loc_of_shr_record mrs1)).
  assert (Hb : shr_m mrs1 <= m2 <= shr_m mrs1 + 1) by apply round_nearest_even_bounds.
  assert (H0 : 0 <= mx / 2 ^ shift_of mx ex).
  { apply Z.div_pos; [exact Hm | apply Z.pow_pos_nonneg; [lia | apply shift_of_nonneg]]. }
  assert (Hm2 : 0 <= m2) by lia.
  pose proof (shr_fexp_spec m2 e1 loc_Exact Hm2) as [H3 H4].
  destruct (shr_fexp prec emax m2 e1 loc_Exact) as [mrs2 e2]. cbn [fst snd] in H3, H4.
  exists m2. split; [lia |].
  rewrite H3, H4, H2. reflexivity.
Qed.


Lemma shift_ge_repr M E cm ce :
  0 < M -> representable cm ce ->
  (F2R cm ce <= F2R M E)%R ->
  (F2R cm ce <= F2R (M / 2 ^ shift_of M E) (E + shift_of M E))%R.
Proof.
  intros HM [Hcm Hce] Hle.
  destruct M as [| p | p]; try lia.
  pose proof (shift_of_nonneg (Zpos p) E) as Hk0.
  destruct (Z.eq_dec (shift_of (Zpos p) E) 0) as [Hk | Hk].
  { rewrite Hk, Z.pow_0_r, Z.div_1_r, Z.add_0_r. exact Hle. }
  assert (HE : E + shift_of (Zpos p) E = fexp (Zpos (digits2_pos p) + E)).
  { revert Hk. unfold shr_amount. cbn [Zdigits2]. lia. }
  assert (H2k : 0 < 2 ^ shift_of (Zpos p) E) by (apply Z.pow_pos_nonneg; lia).
  set (k := shift_of (Zpos p) E) in *.
  destruct (Z_le_gt_dec (E + k) ce) as [Hc | Hc].
  - rewrite (F2R_change_exp cm ce (E + k)) by exact Hc.
    apply F2R_le_compat. apply Z.div_le_lower_bound; [exact H2k |].
    rewrite (F2R_change_exp cm ce E) in Hle by lia.
    apply F2R_le_inv in Hle.
    replace (ce - E) with (ce - (E + k) + k) in Hle by lia.
    rewrite Z.pow_add_r in Hle by lia. lia.
  - assert (Hk' : k = Zpos (digits2_pos p) - prec).
    { revert HE. unfold SpecFloat.fexp. lia. }
    apply Rle_trans with (F2R (2 ^ prec) ce).
    { apply F2R_le_compat. lia. }
    apply Rle_trans with (F2R 1 (Zpos (digits2_pos p) - 1 + E)).
    { rewrite (F2R_change_exp 1 _ ce) by lia. apply F2R_le_compat.
      rewrite Z.mul_1_l. apply Z.pow_le_mono_r; lia. }
    rewrite (F2R_change_exp 1 _ (E + k)) by lia. apply F2R_le_compat.
    rewrite Z.mul_1_l. apply Z.div_le_lower_bound; [exact H2k |].
    rewrite <- Z.pow_add_r by lia.
    replace (k + (Zpos (digits2_pos p) - 1 + E - (E + k))) with (Zpos (digits2_pos p) - 1) by lia.
    pose proof (digits2_pos_bounds p). lia.
Qed.

(** The power of two [shr_fexp] aligns to is small next to the number. *)
Lemma bpow_shift_le M E :
  0 <= M ->
  (bpow (E + shift_of M E) <= F2R M E + bpow E + bpow emin)%R.
Proof.
  intros HM.
  pose proof (bpow_gt_0 E) as HE. pose proof (bpow_gt_0 emin) as Hmin.
  pose proof (F2R_ge_0 M E HM) as HF.
  unfold shr_amount.
  destruct (Z_le_gt_dec (fexp (Zdigits2 M + E) - E) 0) as [Hs | Hs].
  { replace (Z.max 0 _) with 0 by lia. rewrite Z.add_0_r. lra. }
  replace (E + Z.max 0 (fexp (Zdigits2 M + E) - E)) with (fexp (Zdigits2 M + E)) by lia.
  unfold SpecFloat.fexp in *.
  destruct (Z_le_gt_dec (Zdigits2 M + E - prec) emin) as [Hc | Hc].
  { replace (Z.max _ emin) with emin by lia. lra. }
  replace (Z.max _ emin) with (Zdigits2 M + E - prec) by lia.
  destruct M as [| p | p]; cbn [Zdigits2] in *; try lia.
  pose proof (F2R_pos_ge_bpow p E) as Hp.
  assert (Hq : (bpow (Zpos (digits2_pos p) + E - prec) <= bpow (Zpos (digits2_pos p) - 1 + E))%R)
    by (apply bpow_le; lia).
  lra.
Qed.


Lemma binary_round_aux_within sx mx ex lx lo hi :
  0 <= mx ->
  ((lo <= 0)%R \/
   exists cm ce, 0 < mx /\ representable cm ce /\ lo = F2R cm ce /\ (lo <= F2R mx ex)%R) ->
  (2 * F2R mx ex + bpow ex + bpow emin <= hi)%R ->
  (hi < bpow (emax - prec + 1))%R ->
  fp_within lo hi sx (binary_round_aux prec emax sx mx ex lx).
Proof.
  intros Hmx Hlo Hhi Hfin.
  destruct (binary_round_aux_shape sx mx ex lx Hmx) as (m2 & Hm2 & ->).
  set (k1 := shift_of mx ex) in *. set (e1 := ex + k1) in *.
  set (k2 := shift_of m2 e1) in *.
  pose proof (shift_of_nonneg mx ex) as Hk1. fold k1 in Hk1.
  pose proof (shift_of_nonneg m2 e1) as Hk2. fold k2 in Hk2.
  assert (H1 : 0 <= mx / 2 ^ k1) by (apply Z.div_pos; [lia | apply Z.pow_pos_nonneg; lia]).
  assert (Hm2' : 0 <= m2) by lia.
  assert (Hup : (F2R (m2 / 2 ^ k2) (e1 + k2) <= hi)%R).
  { apply Rle_trans with (F2R m2 e1); [apply F2R_shift_le; lia |].
    apply Rle_trans with (F2R (mx / 2 ^ k1 + 1) e1); [apply F2R_le_compat; lia |].
    pose proof (F2R_shift_le mx ex k1 Hmx Hk1) as Ha. fold e1 in Ha.
    pose proof (bpow_shift_le mx ex Hmx) as Hb. fold k1 in Hb. fold e1 in Hb.
    unfold F2R in *. rewrite plus_IZR. lra. }
  assert (Hdn : (lo <= F2R (m2 / 2 ^ k2) (e1 + k2))%R).
  { destruct Hlo as [Hlo | (cm & ce & Hpos & Hrep & -> & Hle)].
    - apply Rle_trans with 0%R; [exact Hlo |]. apply F2R_ge_0.
      apply Z.div_pos; [lia | apply Z.pow_pos_nonneg; lia].
    - pose proof (shift_ge_repr mx ex cm ce Hpos Hrep Hle) as Ha.
      fold k1 in Ha. fold e1 in Ha.
      assert (Hc0 : (0 < F2R cm ce)%R).
      { destruct Hrep as [Hcm _]. replace 0%R with (F2R 0 ce) by (unfold F2R; lra).
        apply F2R_lt_compat. lia. }
      assert (Hm2p : 0 < m2).
      { destruct (Z_lt_le_dec 0 m2) as [Hp | Hp]; [exact Hp |].
        assert (Hz : mx / 2 ^ k1 <= 0) by lia.
        apply (F2R_le_compat _ _ e1) in Hz. unfold F2R at 2 in Hz. lra. }
      apply shift_ge_repr; [exact Hm2p | exact Hrep |].
      apply Rle_trans with (1 := Ha). apply F2R_le_compat. lia. }
  destruct (m2 / 2 ^ k2) as [| m | m] eqn:Hm3.
  - cbn [fp_within]. split; [reflexivity |]. unfold F2R in Hdn. lra.
  - destruct (Z.leb_spec (e1 + k2) (emax - prec)) as [He | He].
    + cbn [fp_within]. split; [reflexivity | split; assumption].
    + exfalso.
      assert (Hx : (bpow (emax - prec + 1) <= F2R (Zpos m) (e1 + k2))%R).
      { apply Rle_trans with (bpow (e1 + k2)); [apply bpow_le; lia |].
        rewrite <- F2R_1. apply F2R_le_compat. lia. }
      lra.
  - exfalso.
    assert (0 <= m2 / 2 ^ k2) by (apply Z.div_pos; [lia | apply Z.pow_pos_nonneg; lia]).
    lia.
Qed.

Lemma Pos_iter_xO m d : Zpos (Pos.iter xO m d) = Zpos m * 2 ^ Zpos d.
Proof.
  induction d as [| d IH] using Pos.peano_ind.
  - cbn. lia.
  - rewrite Pos.iter_succ, Pos2Z.inj_xO, IH, Pos2Z.inj_succ, Z.pow_succ_r by lia. ring.
Qed.

Lemma shl_align_spec mx ex ex' :
  F2R (Zpos (fst (shl_align mx ex ex'))) (snd (shl_align mx ex ex')) = F2R (Zpos mx) ex /\
  snd (shl_align mx ex ex') <= ex.
Proof.
  unfold shl_align. destruct (ex' - ex) as [| d | d] eqn:Hd; cbn [fst snd].
  - split; [reflexivity | lia].
  - split; [reflexivity | lia].
  - split; [| lia].
    rewrite Pos_iter_xO. rewrite (F2R_change_exp (Zpos mx) ex ex') by lia.
    replace (ex - ex') with (Zpos d) by lia. reflexivity.
Qed.

(** Rounding a positive integer times a power of two: [binary_round]. *)
Lemma binary_round_within sx mx ex lo hi :
  ((lo <= 0)%R \/
   exists cm ce, representable cm ce /\ lo = F2R cm ce /\ (lo <= F2R (Zpos mx) ex)%R) ->
  (2 * F2R (Zpos mx) ex + bpow ex + bpow emin <= hi)%R ->
  (hi < bpow (emax - prec + 1))%R ->
  fp_within lo hi sx (binary_round prec emax sx mx ex).
Proof.
  intros Hlo Hhi Hfin. unfold binary_round.
  pose proof (shl_align_spec mx ex (fexp (Zpos (digits2_pos mx) + ex))) as [Hv He].
  destruct (shl_align mx ex (fexp (Zpos (digits2_pos mx) + ex))) as [mz ez].
  cbn [fst snd] in Hv, He.
  apply binary_round_aux_within; [lia | | | exact Hfin].
  - destruct Hlo as [Hlo | (cm & ce & Hrep & Heq & Hle)]; [left; exact Hlo | right].
    exists cm, ce. rewrite Hv.
    split; [lia | split; [exact Hrep | split; [exact Heq | exact Hle]]].
  - rewrite Hv. pose proof (bpow_le ez ex He). lra.
Qed.

(** Multiplication of two finite numbers. *)
Lemma SFmul_within sx mx ex sy my ey lo hi :
  ((lo <= 0)%R \/
   exists cm ce, representable cm ce /\ lo = F2R cm ce /\
     (lo <= F2R (Zpos mx) ex * F2R (Zpos my) ey)%R) ->
  (3 * (F2R (Zpos mx) ex * F2R (Zpos my) ey) + bpow emin <= hi)%R ->
  (hi < bpow (emax - prec + 1))%R ->
  fp_within lo hi (xorb sx sy)
    (SFmul prec emax (S754_finite sx mx ex) (S754_finite sy my ey)).
Proof.
  intros Hlo Hhi Hfin. cbn [SFmul].
  assert (Hv : F2R (Zpos (mx * my)) (ex + ey) = (F2R (Zpos mx) ex * F2R (Zpos my) ey)%R).
  { unfold F2R. rewrite Pos2Z.inj_mul, mult_IZR, bpow_add. ring. }
  apply binary_round_aux_within; [lia | | | exact Hfin].
  - destruct Hlo as [Hlo | (cm & ce & Hrep & Heq & Hle)]; [left; exact Hlo | right].
    exists cm, ce. rewrite Hv.
    split; [lia | split; [exact Hrep | split; [exact Heq | exact Hle]]].
  - rewrite Hv.
    assert (Hb : (bpow (ex + ey) <= F2R (Zpos (mx * my)) (ex + ey))%R).
    { rewrite <- F2R_1. apply F2R_le_compat. lia. }
    rewrite Hv in Hb. lra.
Qed.

Lemma SFdiv_core_binary_spec mx ex my ey :
  let e' := Z.min (fexp (Zpos (digits2_pos mx) + ex - (Zpos (digits2_pos my) + ey))) (ex - ey) in
  exists l,
    SFdiv_core_binary prec emax (Zpos mx) ex (Zpos my) ey =
      (Zpos mx * 2 ^ (ex - ey - e') / Zpos my, e', l).
Proof.
  intros e'. unfold SFdiv_core_binary. cbn [Zdigits2]. fold e'.
  assert (Hs : 0 <= ex - ey - e') by (unfold e'; lia).
  set (m' := match ex - ey - e' with
             | Z0 => Zpos mx
             | Zpos _ => Z.shiftl (Zpos mx) (ex - ey - e')
             | Zneg _ => 0
             end).
  assert (Hm' : m' = Zpos mx * 2 ^ (ex - ey - e')).
  { unfold m'. destruct (ex - ey - e') as [| p | p] eqn:Hp.
    - rewrite Z.pow_0_r. lia.
    - rewrite Z.shiftl_mul_pow2 by lia. reflexivity.
    - lia. }
  rewrite <- Hm'. unfold Z.div.
  destruct (Z.div_eucl m' (Zpos my)) as [q r].
  eexists. reflexivity.
Qed.

(** Division of two finite numbers.  [r] is any upper bound of the exact
    quotient. *)
Lemma SFdiv_within sx mx ex sy my ey lo hi r :
  ((lo <= 0)%R \/
   exists cm ce, representable cm ce /\ lo = F2R cm ce /\
     (lo * F2R (Zpos my) ey <= F2R (Zpos mx) ex)%R /\
     fexp (Zpos (digits2_pos mx) + ex - (Zpos (digits2_pos my) + ey)) <= ce) ->
  (F2R (Zpos mx) ex <= r * F2R (Zpos my) ey)%R ->
  (3 * r + 2 * bpow emin <= hi)%R ->
  (hi < bpow (emax - prec + 1))%R ->
  fp_within lo hi (xorb sx sy)
    (SFdiv prec emax (S754_finite sx mx ex) (S754_finite sy my ey)).
Proof.
  intros Hlo Hr Hhi Hfin. cbn [SFdiv].
  destruct (SFdiv_core_binary_spec mx ex my ey) as [l ->].
  set (g := Zpos (digits2_pos mx) + ex - (Zpos (digits2_pos my) + ey)) in *.
  set (e' := Z.min (fexp g) (ex - ey)).
  set (q := Zpos mx * 2 ^ (ex - ey - e') / Zpos my).
  assert (Hs : 0 <= ex - ey - e') by (unfold e'; lia).
  assert (H2s : 0 < 2 ^ (ex - ey - e')) by (apply Z.pow_pos_nonneg; lia).
  assert (Hq0 : 0 <= q) by (apply Z.div_pos; lia).
  pose proof (F2R_pos_gt_0 mx ex) as HX. pose proof (F2R_pos_gt_0 my ey) as HY.
  pose proof (bpow_gt_0 emin) as Hmin.
  assert (Hscale : F2R (Zpos mx * 2 ^ (ex - ey - e')) (e' + ey) = F2R (Zpos mx) ex).
  { replace (ex - ey - e') with (ex - (e' + ey)) by lia.
    symmetry. apply F2R_change_exp. lia. }
  assert (HqY : (F2R q e' * F2R (Zpos my) ey <= F2R (Zpos mx) ex)%R).
  { rewrite F2R_mul, <- Hscale. apply F2R_le_compat.
    unfold q. rewrite Z.mul_comm. apply Z.mul_div_le. lia. }
  assert (Hqr : (F2R q e' <= r)%R).
  { apply Rmult_le_reg_r with (F2R (Zpos my) ey); [exact HY | lra]. }
  assert (Hr0 : (0 < r)%R).
  { destruct (Rlt_le_dec 0 r) as [Hp | Hp]; [exact Hp |].
    assert (r * F2R (Zpos my) ey <= 0)%R by nra. lra. }
  assert (He' : (bpow e' <= r + bpow emin)%R).
  { assert (Hle : e' <= fexp g) by (unfold e'; lia).
    unfold SpecFloat.fexp in Hle.
    destruct (Z_le_gt_dec (g - prec) emin) as [Hc | Hc].
    - assert (bpow e' <= bpow emin)%R by (apply bpow_le; lia). lra.
    - assert (H1 : (bpow e' <= bpow (g - 1))%R) by (apply bpow_le; lia).
      assert (H2 : (bpow (g - 1) * F2R (Zpos my) ey <= F2R (Zpos mx) ex)%R).
      { apply Rle_trans with (bpow (g - 1) * bpow (Zpos (digits2_pos my) + ey))%R.
        - apply Rmult_le_compat_l; [apply Rlt_le, bpow_gt_0 |].
          apply Rlt_le, F2R_pos_lt_bpow.
        - rewrite <- bpow_add.
          replace (g - 1 + (Zpos (digits2_pos my) + ey)) with (Zpos (digits2_pos mx) - 1 + ex)
            by (unfold g; lia).
          apply F2R_pos_ge_bpow. }
      assert (H3 : (bpow (g - 1) <= r)%R).
      { apply Rmult_le_reg_r with (F2R (Zpos my) ey); [exact HY | lra]. }
      lra. }
  apply binary_round_aux_within; [exact Hq0 | | lra | exact Hfin].
  destruct Hlo as [Hlo | (cm & ce & Hrep & Heq & Hle & Hce)]; [left; exact Hlo | right].
  exists cm, ce.
  assert (Hce' : e' <= ce) by (unfold e'; fold g; lia).
  assert (Hcq : cm * 2 ^ (ce - e') <= q).
  { unfold q. apply Z.div_le_lower_bound; [lia |].
    apply (F2R_le_inv _ _ (e' + ey)). rewrite Hscale.
    rewrite Z.mul_comm, <- F2R_mul, <- F2R_change_exp by exact Hce'.
    rewrite <- Heq. exact Hle. }
  assert (Hcpos : 0 < cm * 2 ^ (ce - e')).
  { destruct Hrep as [Hcm _]. apply Z.mul_pos_pos; [lia | apply Z.pow_pos_nonneg; lia]. }
  split; [lia | split; [exact Hrep | split; [exact Heq |]]].
  rewrite Heq, (F2R_change_exp cm ce e') by exact Hce'.
  apply F2R_le_compat. exact Hcq.
Qed.

(** *** Relative error of one rounding, from below *)

Lemma bpow_neg k : 0 <= k -> bpow (- k) = (/ IZR (2 ^ k))%R.
Proof.
  intros Hk. unfold bpow. rewrite powerRZ_neg'. fold (bpow k).
  rewrite bpow_Zpow by exact Hk. reflexivity.
Qed.

Lemma shift_rel_lower M E :
  0 <= M ->
  (F2R M E - bpow (1 - prec) * F2R M E - bpow emin <=
   F2R (M / 2 ^ shift_of M E) (E + shift_of M E))%R.
Proof.
  intros HM.
  pose proof (F2R_ge_0 M E HM) as HX.
  pose proof (bpow_gt_0 (1 - prec)) as Hu. pose proof (bpow_gt_0 emin) as Hmin.
  pose proof (shift_of_nonneg M E) as Hk0.
  destruct (Z.eq_dec (shift_of M E) 0) as [Hk | Hk].
  { rewrite Hk, Z.pow_0_r, Z.div_1_r, Z.add_0_r. nra. }
  pose proof (F2R_shift_gt M E (shift_of M E) HM Hk0) as Hgt.
  assert (Hsplit : F2R (M / 2 ^ shift_of M E + 1) (E + shift_of M E) =
                   (F2R (M / 2 ^ shift_of M E) (E + shift_of M E) + bpow (E + shift_of M E))%R).
  { unfold F2R. rewrite plus_IZR. ring. }
  assert (Hb : (bpow (E + shift_of M E) <= bpow (1 - prec) * F2R M E + bpow emin)%R).
  { assert (HE : E + shift_of M E = fexp (Zdigits2 M + E)).
    { revert Hk. unfold shr_amount. lia. }
    rewrite HE. unfold SpecFloat.fexp.
    destruct (Z_le_gt_dec (Zdigits2 M + E - prec) emin) as [Hc | Hc].
    { replace (Z.max _ emin) with emin by lia. nra. }
    replace (Z.max _ emin) with (Zdigits2 M + E - prec) by lia.
    destruct M as [| p | p]; try lia.
    { exfalso. revert Hk Hc. unfold shr_amount, SpecFloat.fexp. cbn [Zdigits2]. lia. }
    cbn [Zdigits2].
    replace (Zpos (digits2_pos p) + E - prec) with (1 - prec + (Zpos (digits2_pos p) - 1 + E)) by lia.
    rewrite bpow_add. pose proof (F2R_pos_ge_bpow p E). nra. }
  lra.
Qed.

Lemma bpow_1_prec_le_1 : (bpow (1 - prec) <= 1)%R.
Proof. replace 1%R with (bpow 0) by reflexivity. apply bpow_le. lia. Qed.

Lemma binary_round_aux_rel_lower sx mx ex lx lo hi :
  0 <= mx ->
  fp_within lo hi sx (binary_round_aux prec emax sx mx ex lx) ->
  (F2R mx ex - 2 * bpow (1 - prec) * F2R mx ex - 2 * bpow emin <=
   fp_abs (binary_round_aux prec emax sx mx ex lx))%R.
Proof.
  intros Hmx.
  destruct (binary_round_aux_shape sx mx ex lx Hmx) as (m2 & Hm2 & ->).
  set (k1 := shift_of mx ex) in *. set (e1 := ex + k1) in *.
  set (k2 := shift_of m2 e1) in *.
  pose proof (shift_of_nonneg mx ex) as Hk1. fold k1 in Hk1.
  assert (H1 : 0 <= mx / 2 ^ k1) by (apply Z.div_pos; [lia | apply Z.pow_pos_nonneg; lia]).
  assert (Hm2' : 0 <= m2) by lia.
  pose proof (shift_rel_lower mx ex Hmx) as Ha. fold k1 in Ha. fold e1 in Ha.
  pose proof (shift_rel_lower m2 e1 Hm2') as Hb. fold k2 in Hb.
  assert (Hc : (F2R (mx / 2 ^ k1) e1 <= F2R m2 e1)%R) by (apply F2R_le_compat; lia).
  pose proof (F2R_ge_0 mx ex Hmx) as HX. pose proof (F2R_ge_0 m2 e1 Hm2') as HV.
  pose proof (bpow_gt_0 (1 - prec)) as Hu. pose proof bpow_1_prec_le_1 as Hu1.
  pose proof (bpow_gt_0 emin) as Hmin.
  assert (Hgoal : (F2R mx ex - 2 * bpow (1 - prec) * F2R mx ex - 2 * bpow emin <=
                   F2R (m2 / 2 ^ k2) (e1 + k2))%R) by nra.
  intros Hw. destruct (m2 / 2 ^ k2) as [| m | m] eqn:Hm3.
  - cbn [fp_abs]. unfold F2R at 3 in Hgoal. lra.
  - destruct (e1 + k2 <=? emax - prec); cbn [fp_within] in Hw; [| contradiction].
    cbn [fp_abs]. exact Hgoal.
  - cbn [fp_within] in Hw. contradiction.
Qed.

Lemma binary_round_rel_lower sx mx ex lo hi :
  fp_within lo hi sx (binary_round prec emax sx mx ex) ->
  (F2R (Zpos mx) ex - 2 * bpow (1 - prec) * F2R (Zpos mx) ex - 2 * bpow emin <=
   fp_abs (binary_round prec emax sx mx ex))%R.
Proof.
  unfold binary_round.
  pose proof (shl_align_spec mx ex (fexp (Zpos (digits2_pos mx) + ex))) as [Hv He].
  destruct (shl_align mx ex (fexp (Zpos (digits2_pos mx) + ex))) as [mz ez].
  cbn [fst snd] in Hv, He. intros Hw. rewrite <- Hv.
  apply (binary_round_aux_rel_lower sx (Zpos mz) ez loc_Exact lo hi); [lia | exact Hw].
Qed.

Lemma SFmul_rel_lower sx mx ex sy my ey lo hi :
  fp_within lo hi (xorb sx sy)
    (SFmul prec emax (S754_finite sx mx ex) (S754_finite sy my ey)) ->
  (F2R (Zpos mx) ex * F2R (Zpos my) ey
   - 2 * bpow (1 - prec) * (F2R (Zpos mx) ex * F2R (Zpos my) ey) - 2 * bpow emin <=
   fp_abs (SFmul prec emax (S754_finite sx mx ex) (S754_finite sy my ey)))%R.
Proof.
  cbn [SFmul]. intros Hw.
  rewrite F2R_mul. rewrite <- Pos2Z.inj_mul.
  apply (binary_round_aux_rel_lower _ _ _ _ lo hi); [lia | exact Hw].
Qed.

(** [r] is any lower bound of the exact quotient. *)
Lemma SFdiv_rel_lower sx mx ex sy my ey lo hi r :
  2 <= prec ->
  fp_within lo hi (xorb sx sy)
    (SFdiv prec emax (S754_finite sx mx ex) (S754_finite sy my ey)) ->
  (0 <= r)%R ->
  (r * F2R (Zpos my) ey <= F2R (Zpos mx) ex)%R ->
  (r - 3 * bpow (1 - prec) * r - 3 * bpow emin <=
   fp_abs (SFdiv prec emax (S754_finite sx mx ex) (S754_finite sy my ey)))%R.
Proof.
  intros Hp2. cbn [SFdiv].
  destruct (SFdiv_core_binary_spec mx ex my ey) as [l ->].
  set (g := Zpos (digits2_pos mx) + ex - (Zpos (digits2_pos my) + ey)) in *.
  set (e' := Z.min (fexp g) (ex - ey)).
  set (q := Zpos mx * 2 ^ (ex - ey - e') / Zpos my).
  intros Hw Hr0 Hr.
  assert (Hs : 0 <= ex - ey - e') by (unfold e'; lia).
  assert (H2s : 0 < 2 ^ (ex - ey - e')) by (apply Z.pow_pos_nonneg; lia).
  assert (Hq0 : 0 <= q) by (apply Z.div_pos; lia).
  pose proof (F2R_pos_gt_0 mx ex) as HX. pose proof (F2R_pos_gt_0 my ey) as HY.
  pose proof (bpow_gt_0 emin) as Hmin. pose proof (bpow_gt_0 (1 - prec)) as Hu.
  assert (Hu2 : (2 * bpow (1 - prec) <= 1)%R).
  { assert (H : (bpow (1 + (1 - prec)) <= bpow 0)%R) by (apply bpow_le; lia).
    rewrite bpow_add, (bpow_Zpow 1), (bpow_Zpow 0) in H by lia. exact H. }
  assert (Hscale : F2R (Zpos mx * 2 ^ (ex - ey - e')) (e' + ey) = F2R (Zpos mx) ex).
  { replace (ex - ey - e') with (ex - (e' + ey)) by lia.
    symmetry. apply F2R_change_exp. lia. }
  (* the quotient is less than one unit below the exact value *)
  assert (HqY : (F2R (Zpos mx) ex < F2R q e' * F2R (Zpos my) ey + bpow e' * F2R (Zpos my) ey)%R).
  { replace (F2R q e' * F2R (Zpos my) ey + bpow e' * F2R (Zpos my) ey)%R
      with (F2R (q + 1) e' * F2R (Zpos my) ey)%R by (unfold F2R; rewrite plus_IZR; ring).
    rewrite F2R_mul, <- Hscale. apply F2R_lt_compat.
    unfold q. pose proof (Z.mul_succ_div_gt (Zpos mx * 2 ^ (ex - ey - e')) (Zpos my) ltac:(lia)).
    lia. }
  assert (He' : (bpow e' * F2R (Zpos my) ey <=
                 bpow (1 - prec) * F2R (Zpos mx) ex + bpow emin * F2R (Zpos my) ey)%R).
  { assert (Hle : e' <= fexp g) by (unfold e'; lia).
    unfold SpecFloat.fexp in Hle.
    destruct (Z_le_gt_dec (g - prec) emin) as [Hc | Hc].
    - assert (bpow e' <= bpow emin)%R by (apply bpow_le; lia). nra.
    - assert (H1 : (bpow e' <= bpow (1 - prec + (g - 1)))%R) by (apply bpow_le; lia).
      rewrite bpow_add in H1.
      assert (H2 : (bpow (g - 1) * F2R (Zpos my) ey <= F2R (Zpos mx) ex)%R).
      { apply Rle_trans with (bpow (g - 1) * bpow (Zpos (digits2_pos my) + ey))%R.
        - apply Rmult_le_compat_l; [apply Rlt_le, bpow_gt_0 |].
          apply Rlt_le, F2R_pos_lt_bpow.
        - rewrite <- bpow_add.
          replace (g - 1 + (Zpos (digits2_pos my) + ey)) with (Zpos (digits2_pos mx) - 1 + ex)
            by (unfold g; lia).
          apply F2R_pos_ge_bpow. }
      pose proof (bpow_gt_0 (g - 1)). nra. }
  assert (HQ : (r - bpow (1 - prec) * r - bpow emin <= F2R q e')%R).
  { apply Rmult_le_reg_r with (F2R (Zpos my) ey); [exact HY |]. nra. }
  pose proof (binary_round_aux_rel_lower (xorb sx sy) q e' l lo hi Hq0 Hw) as Hrnd.
  pose proof (F2R_ge_0 q e' Hq0) as HQ0.
  nra.
Qed.

End Rounding.


Lemma shiftl_floor m e :
  0 <= Z.shiftl (Zpos m) e /\
  (IZR (Z.shiftl (Zpos m) e) <= F2R (Zpos m) e < IZR (Z.shiftl (Zpos m) e) + 1)%R.
Proof.
  destruct (Z_le_gt_dec 0 e) as [He | He].
  - rewrite Z.shiftl_mul_pow2 by exact He.
    assert (H2 : 0 < 2 ^ e) by (apply Z.pow_pos_nonneg; lia).
    split; [lia |].
    unfold F2R. rewrite mult_IZR, <- bpow_Zpow by exact He. lra.
  - rewrite Z.shiftl_div_pow2 by lia.
    assert (H2 : 0 < 2 ^ (- e)) by (apply Z.pow_pos_nonneg; lia).
    split; [apply Z.div_pos; lia |].
    pose proof (F2R_shift_le (Zpos m) e (- e) ltac:(lia) ltac:(lia)) as Hl.
    pose proof (F2R_shift_gt (Zpos m) e (- e) ltac:(lia) ltac:(lia)) as Hg.
    replace (e + - e) with 0 in Hl, Hg by lia.
    unfold F2R at 1 in Hl. unfold F2R at 2 in Hg. unfold bpow in Hl, Hg.
    cbn [powerRZ] in Hl, Hg. rewrite plus_IZR in Hg. lra.
Qed.

Lemma to_int64_within lo hi s x :
  fp_within lo hi s x ->
  (hi < IZR (2 ^ 63))%R ->
  exists t,
    Chrono.to_int64 x = cond_Zopp s t /\ 0 <= t /\ fp_sign x = s /\
    (IZR t <= fp_abs x < IZR t + 1)%R.
Proof.
  intros Hw Hhi. destruct x as [s' | s' | | s' m e]; cbn [fp_within] in Hw; try contradiction.
  - destruct Hw as [-> _]. exists 0. cbn [Chrono.to_int64 fp_sign fp_abs].
    repeat split; try lra; try lia. destruct s; reflexivity.
  - destruct Hw as [-> [_ Hup]].
    destruct (shiftl_floor m e) as [Ht0 Ht].
    exists (Z.shiftl (Zpos m) e). cbn [Chrono.to_int64 fp_sign fp_abs].
    assert (Hlt : Z.shiftl (Zpos m) e < 2 ^ 63) by (apply lt_IZR; lra).
    assert (Hin : (Chrono.int64_min <=? cond_Zopp s (Z.shiftl (Zpos m) e)) &&
                  (cond_Zopp s (Z.shiftl (Zpos m) e) <=? Chrono.int64_max) = true).
    { unfold Chrono.int64_min, Chrono.int64_max.
      apply andb_true_intro; split; apply Z.leb_le; destruct s; cbn [cond_Zopp]; lia. }
    cbv zeta. rewrite Hin. repeat split; try assumption; lra.
Qed.

Section Pipeline.

Variable f : Chrono.fp_format.
Variables mb mk : positive.
Variables eb ek : Z.

Hypothesis prec_gt_0 : 0 < Chrono.prec f.
Hypothesis emin_le_0 : emin (Chrono.prec f) (Chrono.emax f) <= 0.
Hypothesis emax_ge : 65 <= Chrono.emax f - Chrono.prec f + 1.
Hypothesis nano_eq : Chrono.of_int64 f Chrono.nano_den = S754_finite false mb eb.
Hypothesis nano_val : F2R (Zpos mb) eb = IZR Chrono.nano_den.
Hypothesis milli_eq : Chrono.of_int64 f Chrono.milli_den = S754_finite false mk ek.
Hypothesis milli_val : F2R (Zpos mk) ek = IZR Chrono.milli_den.

Lemma bpow_emin_le_1 : (bpow (emin (Chrono.prec f) (Chrono.emax f)) <= 1)%R.
Proof. replace 1%R with (bpow 0) by reflexivity. apply bpow_le, emin_le_0. Qed.

Lemma bpow_top_ge : (IZR (2 ^ 65) <= bpow (Chrono.emax f - Chrono.prec f + 1))%R.
Proof. rewrite <- bpow_Zpow by lia. apply bpow_le, emax_ge. Qed.

Lemma of_int64_nonzero n :
  n <> 0 ->
  Chrono.of_int64 f n =
    binary_round (Chrono.prec f) (Chrono.emax f) (n <? 0) (Z.to_pos (Z.abs n)) 0.
Proof.
  intros Hn. unfold Chrono.of_int64, binary_normalize.
  destruct n as [| p | p]; [contradiction | reflexivity | reflexivity].
Qed.

(** Whatever the difference of two 64-bit readings, the floating-point number
    of milliseconds is zero or finite, has the sign of the difference and is
    far below 2^63. *)
Lemma fp_milliseconds_bounded n :
  - 2 ^ 63 <= n <= 2 ^ 63 ->
  fp_within 0 200000000000000 (n <? 0) (Chrono.fp_milliseconds f n).
Proof.
  intros Hn.
  pose proof bpow_emin_le_1 as Hmin. pose proof bpow_top_ge as Htop.
  pose proof (bpow_gt_0 (emin (Chrono.prec f) (Chrono.emax f))) as Hmin0.
  assert (H65 : IZR (2 ^ 65) = 36893488147419103232%R) by reflexivity.
  unfold Chrono.fp_milliseconds, Chrono.seconds_of_ticks, Chrono.fmul, Chrono.fdiv.
  rewrite nano_eq, milli_eq.
  destruct (Z.eq_dec n 0) as [-> | Hn0].
  { cbn. split; [reflexivity | lra]. }
  rewrite (of_int64_nonzero n Hn0).
  set (s := n <? 0).
  assert (Hx : fp_within 0 18446744073709551618 s
                 (binary_round (Chrono.prec f) (Chrono.emax f) s (Z.to_pos (Z.abs n)) 0)).
  { apply binary_round_within; [exact prec_gt_0 | left; lra | | lra].
    assert (Ha : (F2R (Zpos (Z.to_pos (Z.abs n))) 0 <= 9223372036854775808)%R).
    { unfold F2R, bpow. cbn [powerRZ]. rewrite Rmult_1_r. apply IZR_le.
      rewrite Z2Pos.id by lia. change 9223372036854775808 with (2 ^ 63). lia. }
    replace (bpow 0) with 1%R by reflexivity. lra. }
  destruct (binary_round _ _ s _ 0) as [sx | sx | | sx mx ex]; cbn [fp_within] in Hx;
    try contradiction.
  { destruct Hx as [-> _]. cbn. split; [destruct s; reflexivity | lra]. }
  destruct Hx as [-> [Hx0 Hx1]].
  assert (Hy : fp_within 0 60000000002 (xorb s false)
                 (SFdiv (Chrono.prec f) (Chrono.emax f) (S754_finite s mx ex)
                    (S754_finite false mb eb))).
  { apply SFdiv_within with (r := 20000000000%R); [exact prec_gt_0 | left; lra | | lra | lra].
    rewrite nano_val. unfold Chrono.nano_den. lra. }
  rewrite xorb_false_r in Hy.
  destruct (SFdiv _ _ _ _) as [sy | sy | | sy my ey]; cbn [fp_within] in Hy;
    try contradiction.
  { destruct Hy as [-> _]. cbn. split; [destruct s; reflexivity | lra]. }
  destruct Hy as [-> [Hy0 Hy1]].
  rewrite <- (xorb_false_r s) at 1.
  apply SFmul_within; [exact prec_gt_0 | left; lra | | lra].
  rewrite milli_val. unfold Chrono.milli_den. lra.
Qed.

Hypothesis prec_ge : 35 <= Chrono.prec f.
Hypothesis nano_repr : representable_in (Chrono.prec f) (Chrono.emax f) (Zpos mb) eb.
Hypothesis nano_mag : Zpos (digits2_pos mb) + eb = 30.
Hypothesis milli_repr : representable_in (Chrono.prec f) (Chrono.emax f) (Zpos mk) ek.

(** From one second of ticks on, the floating-point number of milliseconds
    is at least 1000. *)
Lemma fp_milliseconds_ge_1000 n :
  Chrono.nano_den <= n <= 2 ^ 63 ->
  fp_within 1000 200000000000000 false (Chrono.fp_milliseconds f n).
Proof.
  intros Hn.
  pose proof bpow_emin_le_1 as Hmin. pose proof bpow_top_ge as Htop.
  pose proof (bpow_gt_0 (emin (Chrono.prec f) (Chrono.emax f))) as Hmin0.
  assert (H65 : IZR (2 ^ 65) = 36893488147419103232%R) by reflexivity.
  unfold Chrono.fp_milliseconds, Chrono.seconds_of_ticks, Chrono.fmul, Chrono.fdiv.
  rewrite nano_eq, milli_eq.
  unfold Chrono.nano_den in Hn.
  rewrite (of_int64_nonzero n) by lia.
  replace (n <? 0) with false by (symmetry; apply Z.ltb_ge; lia).
  assert (Hv : F2R (Zpos (Z.to_pos (Z.abs n))) 0 = IZR n).
  { unfold F2R, bpow. cbn [powerRZ]. rewrite Rmult_1_r, Z2Pos.id by lia.
    f_equal. lia. }
  assert (Hn1 : (1000000000 <= IZR n <= 9223372036854775808)%R).
  { split; apply IZR_le; [lia | change 9223372036854775808 with (2 ^ 63); lia]. }
  assert (Hx : fp_within 1000000000 18446744073709551618 false
                 (binary_round (Chrono.prec f) (Chrono.emax f) false (Z.to_pos (Z.abs n)) 0)).
  { apply binary_round_within; [exact prec_gt_0 | right | | lra].
    - exists (Zpos mb), eb. rewrite Hv, nano_val. unfold Chrono.nano_den.
      split; [exact nano_repr | split; [reflexivity | lra]].
    - rewrite Hv. replace (bpow 0) with 1%R by reflexivity. lra. }
  destruct (binary_round _ _ false _ 0) as [sx | sx | | sx mx ex]; cbn [fp_within] in Hx;
    try contradiction.
  { destruct Hx as [_ Hx]. lra. }
  destruct Hx as [-> [Hx0 Hx1]].
  assert (Hmag : Zpos (digits2_pos mx) + ex <= 65).
  { pose proof (F2R_pos_ge_bpow mx ex) as Hb.
    assert (Hlt : (bpow (Zpos (digits2_pos mx) - 1 + ex) < bpow 65)%R).
    { rewrite (bpow_Zpow 65) by lia. lra. }
    apply bpow_lt_inv in Hlt. lia. }
  assert (Hy : fp_within 1 60000000002 (xorb false false)
                 (SFdiv (Chrono.prec f) (Chrono.emax f) (S754_finite false mx ex)
                    (S754_finite false mb eb))).
  { apply SFdiv_within with (r := 20000000000%R); [exact prec_gt_0 | right | | lra | lra].
    - exists 1, 0. split; [| split; [unfold F2R, bpow; cbn [powerRZ]; lra | split]].
      + split; [| exact emin_le_0].
        split; [lia |]. apply Z.lt_pred_le, Z.pow_pos_nonneg; lia.
      + rewrite nano_val. unfold Chrono.nano_den. lra.
      + rewrite nano_mag. unfold fexp. lia.
    - rewrite nano_val. unfold Chrono.nano_den. lra. }
  cbn [xorb] in Hy.
  destruct (SFdiv _ _ _ _) as [sy | sy | | sy my ey]; cbn [fp_within] in Hy;
    try contradiction.
  { destruct Hy as [_ Hy]. lra. }
  destruct Hy as [-> [Hy0 Hy1]].
  change false with (xorb false false) at 1.
  apply SFmul_within; [exact prec_gt_0 | right | | lra].
  - exists (Zpos mk), ek. rewrite milli_val. unfold Chrono.milli_den.
    split; [exact milli_repr | split; [reflexivity | nra]].
  - rewrite milli_val. unfold Chrono.milli_den. lra.
Qed.

(** How far below the exact quotient and product the three roundings can
    take the result: [x] is the tick count as a floating-point number, [y]
    the number of seconds. *)
Lemma fp_milliseconds_rel_lower n :
  0 < n <= 2 ^ 63 ->
  exists x y : R,
    (0 <= x)%R /\ (0 <= y)%R /\
    (IZR n - 2 * bpow (1 - Chrono.prec f) * IZR n
       - 2 * bpow (emin (Chrono.prec f) (Chrono.emax f)) <= x)%R /\
    (x / 1000000000 - 3 * bpow (1 - Chrono.prec f) * (x / 1000000000)
       - 3 * bpow (emin (Chrono.prec f) (Chrono.emax f)) <= y)%R /\
    (y * 1000 - 2 * bpow (1 - Chrono.prec f) * (y * 1000)
       - 2 * bpow (emin (Chrono.prec f) (Chrono.emax f)) <=
     fp_abs (Chrono.fp_milliseconds f n))%R.
Proof.
  intros Hn.
  pose proof bpow_emin_le_1 as Hmin. pose proof bpow_top_ge as Htop.
  pose proof (bpow_gt_0 (emin (Chrono.prec f) (Chrono.emax f))) as Hmin0.
  pose proof (bpow_gt_0 (1 - Chrono.prec f)) as Hu.
  assert (H65 : IZR (2 ^ 65) = 36893488147419103232%R) by reflexivity.
  unfold Chrono.fp_milliseconds, Chrono.seconds_of_ticks, Chrono.fmul, Chrono.fdiv.
  rewrite nano_eq, milli_eq.
  rewrite (of_int64_nonzero n) by lia.
  replace (n <? 0) with false by (symmetry; apply Z.ltb_ge; lia).
  assert (Hv : F2R (Zpos (Z.to_pos (Z.abs n))) 0 = IZR n).
  { unfold F2R, bpow. cbn [powerRZ]. rewrite Rmult_1_r, Z2Pos.id by lia.
    f_equal. lia. }
  assert (Hn1 : (0 < IZR n <= 9223372036854775808)%R).
  { split; [apply IZR_lt; lia | apply IZR_le; change 9223372036854775808 with (2 ^ 63); lia]. }
  assert (Hx : fp_within 0 18446744073709551618 false
                 (binary_round (Chrono.prec f) (Chrono.emax f) false (Z.to_pos (Z.abs n)) 0)).
  { apply binary_round_within; [exact prec_gt_0 | left; lra | | lra].
    rewrite Hv. replace (bpow 0) with 1%R by reflexivity. lra. }
  pose proof (binary_round_rel_lower _ _ prec_gt_0 _ _ _ _ _ Hx) as Hxr.
  rewrite Hv in Hxr.
  exists (fp_abs (binary_round (Chrono.prec f) (Chrono.emax f) false (Z.to_pos (Z.abs n)) 0)).
  destruct (binary_round _ _ false _ 0) as [sx | sx | | sx mx ex]; cbn [fp_within] in Hx;
    try contradiction.
  { exists 0%R. cbn [fp_abs SFdiv SFmul] in *. repeat split; lra. }
  destruct Hx as [-> [Hx0 Hx1]]. cbn [fp_abs] in Hxr |- *.
  assert (Hy : fp_within 0 60000000002 (xorb false false)
                 (SFdiv (Chrono.prec f) (Chrono.emax f) (S754_finite false mx ex)
                    (S754_finite false mb eb))).
  { apply SFdiv_within with (r := 20000000000%R); [exact prec_gt_0 | left; lra | | lra | lra].
    rewrite nano_val. unfold Chrono.nano_den. lra. }
  assert (Hyr := SFdiv_rel_lower _ _ prec_gt_0 _ _ _ _ _ _ _ _
                   (F2R (Zpos mx) ex / 1000000000) ltac:(lia) Hy).
  rewrite nano_val in Hyr. unfold Chrono.nano_den in Hyr.
  specialize (Hyr ltac:(lra) ltac:(lra)).
  cbn [xorb] in Hy.
  exists (fp_abs (SFdiv (Chrono.prec f) (Chrono.emax f) (S754_finite false mx ex)
                    (S754_finite false mb eb))).
  destruct (SFdiv _ _ _ _) as [sy | sy | | sy my ey]; cbn [fp_within] in Hy;
    try contradiction.
  { cbn [fp_abs SFmul] in *. repeat split; lra. }
  destruct Hy as [-> [Hy0 Hy1]]. cbn [fp_abs] in Hyr |- *.
  assert (Hz : fp_within 0 200000000000000 (xorb false false)
                 (SFmul (Chrono.prec f) (Chrono.emax f) (S754_finite false my ey)
                    (S754_finite false mk ek))).
  { apply SFmul_within; [exact prec_gt_0 | left; lra | | lra].
    rewrite milli_val. unfold Chrono.milli_den. lra. }
  pose proof (SFmul_rel_lower _ _ prec_gt_0 _ _ _ _ _ _ _ _ Hz) as Hzr.
  rewrite milli_val in Hzr. unfold Chrono.milli_den in Hzr.
  repeat split; try lra.
Qed.

End Pipeline.

Lemma F2R_exact m e k : (if 0 <=? e then m * 2 ^ e =? k else m =? k * 2 ^ (- e)) = true -> F2R m e = IZR k.
Proof.
  destruct (Z.leb_spec 0 e) as [He | He]; intros H; apply Z.eqb_eq in H.
  - unfold F2R. rewrite bpow_Zpow, <- mult_IZR, H by exact He. reflexivity.
  - rewrite H. replace (IZR k) with (F2R k 0) by (unfold F2R, bpow; cbn [powerRZ]; lra).
    symmetry. rewrite (F2R_change_exp k 0 e) by lia. reflexivity.
Qed.

Lemma fp_milliseconds32_bounded n : - 2 ^ 63 <= n <= 2 ^ 63 ->
  fp_within 0 200000000000000 (n <? 0) (Chrono.fp_milliseconds Chrono.binary32 n).
Proof.
  apply (fp_milliseconds_bounded Chrono.binary32 15625000 16384000 6 (-14)).
  - reflexivity.
  - unfold emin; cbn; lia.
  - cbn; lia.
  - reflexivity.
  - apply F2R_exact. reflexivity.
  - reflexivity.
  - apply F2R_exact. reflexivity.
Qed.

Lemma fp_milliseconds64_bounded n : - 2 ^ 63 <= n <= 2 ^ 63 ->
  fp_within 0 200000000000000 (n <? 0) (Chrono.fp_milliseconds Chrono.binary64 n).
Proof.
  apply (fp_milliseconds_bounded Chrono.binary64 8388608000000000 8796093022208000 (-23) (-43)).
  - reflexivity.
  - unfold emin; cbn; lia.
  - cbn; lia.
  - reflexivity.
  - apply F2R_exact. reflexivity.
  - reflexivity.
  - apply F2R_exact. reflexivity.
Qed.

Lemma fp_milliseconds64_ge_1000 n : Chrono.nano_den <= n <= 2 ^ 63 ->
  fp_within 1000 200000000000000 false (Chrono.fp_milliseconds Chrono.binary64 n).
Proof.
  apply (fp_milliseconds_ge_1000 Chrono.binary64 8388608000000000 8796093022208000 (-23) (-43)).
  - reflexivity.
  - unfold emin; cbn; lia.
  - cbn; lia.
  - reflexivity.
  - apply F2R_exact. reflexivity.
  - reflexivity.
  - apply F2R_exact. reflexivity.
  - cbn; lia.
  - unfold representable_in, emin; cbn. lia.
  - reflexivity.
  - unfold representable_in, emin; cbn. lia.
Qed.


Lemma fp_milliseconds64_lower n :
  0 < n <= 2 ^ 63 ->
  (IZR n / 1000000 - 1 / 10 <= fp_abs (Chrono.fp_milliseconds Chrono.binary64 n))%R.
Proof.
  intros Hn.
  destruct (fp_milliseconds_rel_lower Chrono.binary64 8388608000000000 8796093022208000
              (-23) (-43)) with (n := n) as (x & y & Hx0 & Hy0 & Hx & Hy & Hz);
    try reflexivity; try (apply F2R_exact; reflexivity); try (cbn; lia);
    try (unfold emin; cbn; lia); try (unfold representable_in, emin; cbn; lia).
  assert (Hn1 : (0 < IZR n <= 9223372036854775808)%R).
  { split; [apply IZR_lt; lia | apply IZR_le; change 9223372036854775808 with (2 ^ 63); lia]. }
  assert (Hu : bpow (1 - Chrono.prec Chrono.binary64) = (/ 4503599627370496)%R).
  { exact (bpow_neg 52 ltac:(lia)). }
  assert (He : (bpow (emin (Chrono.prec Chrono.binary64) (Chrono.emax Chrono.binary64))
                <= / 1267650600228229401496703205376)%R).
  { apply Rle_trans with (bpow (Z.opp 100)); [apply bpow_le; unfold emin; cbn; lia |].
    rewrite bpow_neg by lia. apply Rle_refl. }
  pose proof (bpow_gt_0 (emin (Chrono.prec Chrono.binary64) (Chrono.emax Chrono.binary64))).
  rewrite Hu in Hx, Hy, Hz. lra.
Qed.

(** ** 64-bit clock arithmetic *)

Lemma wrap64_range z : - 2 ^ 63 <= Chrono.wrap64 z < 2 ^ 63.
Proof.
  unfold Chrono.wrap64.
  pose proof (Z.mod_pos_bound (z + 2 ^ 63) (2 ^ 64) ltac:(lia)). lia.
Qed.

Lemma wrap64_small z : - 2 ^ 63 <= z < 2 ^ 63 -> Chrono.wrap64 z = z.
Proof.
  intros Hz. unfold Chrono.wrap64. rewrite Z.mod_small by lia. lia.
Qed.

Lemma wrap64_sub a b :
  Chrono.wrap64 (Chrono.wrap64 a - Chrono.wrap64 b) = Chrono.wrap64 (a - b).
Proof.
  unfold Chrono.wrap64.
  rewrite (Z.mod_eq (a + 2 ^ 63)), (Z.mod_eq (b + 2 ^ 63)) by lia.
  set (ka := (a + 2 ^ 63) / 2 ^ 64). set (kb := (b + 2 ^ 63) / 2 ^ 64).
  replace (a + 2 ^ 63 - 2 ^ 64 * ka - 2 ^ 63 - (b + 2 ^ 63 - 2 ^ 64 * kb - 2 ^ 63) + 2 ^ 63)
    with (a - b + 2 ^ 63 + (kb - ka) * 2 ^ 64) by ring.
  rewrite Z_mod_plus_full. reflexivity.
Qed.

(** The difference of two readings is the 64-bit wrap of the time that went
    by on the clock. *)
Lemma elapsed_readings c0 c1 :
  Chrono.elapsed (Chrono.wrap64 c0) (Chrono.wrap64 c1) = Chrono.wrap64 (c1 - c0).
Proof. unfold Chrono.elapsed. apply wrap64_sub. Qed.

Lemma elapsed_range a b : - 2 ^ 63 <= Chrono.elapsed a b < 2 ^ 63.
Proof. unfold Chrono.elapsed. apply wrap64_range. Qed.

(** ** What the program's functions do to the world *)

Lemma string_append_assoc (a b c : string) : ((a ++ b) ++ c = a ++ (b ++ c))%string.
Proof. induction a as [| ch a IH]; cbn; [reflexivity | rewrite IH; reflexivity]. Qed.

(** The four insertions into [std::cout] write one report line. *)
Lemma write_report ms w :
  write endl (write " ms" (write (show_int64 ms) (write "function took " w))) =
  write (report_line ms) w.
Proof.
  unfold write, report_line; cbn [clock clock_available oversleep cout].
  f_equal. rewrite !string_append_assoc. reflexivity.
Qed.

Section Behaviour.

Context {exn : Type}.

Lemma Timing_ctor_spec w :
  Timing_ctor (exn := exn) w =
    (Returned {| start := Chrono.wrap64 (clock w); end_ := 0; duration := S754_zero false |}, w).
Proof. reflexivity. Qed.

Lemma Timing_dtor_spec (this : Timing) w :
  Timing_dtor (exn := exn) this w =
    (Returned
       {| start := start this;
          end_ := Chrono.wrap64 (clock w);
          duration :=
            Chrono.seconds_of_ticks Chrono.binary32
              (Chrono.elapsed (start this) (Chrono.wrap64 (clock w))) |},
     write (report_line
              (Chrono.ms_of_ticks Chrono.binary32
                 (Chrono.elapsed (start this) (Chrono.wrap64 (clock w))))) w).
Proof.
  cbv [Timing_dtor bind now clock_gettime cout_put ret snd].
  rewrite write_report. reflexivity.
Qed.

Lemma with_Timing_spec {A} (body : M exn A) w :
  with_Timing body w =
    (fst (body w),
     write (report_line (timer_report w (snd (body w)))) (snd (body w))).
Proof.
  unfold with_Timing. rewrite Timing_ctor_spec.
  destruct (body w) as [r w1]. rewrite Timing_dtor_spec.
  cbn [start fst snd]. rewrite elapsed_readings. reflexivity.
Qed.

Lemma timeit_spec {Args D} {RT : ReturnType D} (func : Args -> M exn D) (args : Args) w :
  timeit func args w =
    match func args w with
    | (Returned call, w1) =>
        (Returned (return_local (copy_init call)),
         write (report_line (wrapper_report w w1)) w1)
    | (Raised e, w1) => (Raised e, w1)
    end.
Proof.
  cbv [timeit bind now clock_gettime ret snd].
  destruct (func args w) as [[r | e] w1]; [| reflexivity].
  cbv [cout_put]. rewrite write_report, elapsed_readings. reflexivity.
Qed.

Lemma timeit_void_spec {Args} (func : Args -> M exn unit) (args : Args) w :
  timeit_void func args w =
    match func args w with
    | (Returned _, w1) =>
        (Returned tt, write (report_line (wrapper_report w w1)) w1)
    | (Raised e, w1) => (Raised e, w1)
    end.
Proof.
  cbv [timeit_void bind now clock_gettime ret snd].
  destruct (func args w) as [[r | e] w1]; [| reflexivity].
  cbv [cout_put]. rewrite write_report, elapsed_readings. reflexivity.
Qed.

End Behaviour.

(** ** The printed number of milliseconds *)

Lemma ms_of_ticks_eq f n :
  Chrono.ms_of_ticks f n = Chrono.to_int64 (Chrono.fp_milliseconds f n).
Proof. reflexivity. Qed.

Lemma within_defined lo hi s x :
  fp_within lo hi s x -> (hi < IZR (2 ^ 63))%R -> to_int64_defined x.
Proof.
  intros Hw Hhi.
  destruct x as [s' | s' | | s' m e]; cbn [fp_within] in Hw; try contradiction.
  - exact I.
  - destruct Hw as [_ [_ Hup]]. cbn [to_int64_defined].
    destruct (shiftl_floor m e) as [Ht0 [Ht _]].
    assert (Hlt : Z.shiftl (Zpos m) e < 2 ^ 63) by (apply lt_IZR; lra).
    unfold Chrono.int64_min, Chrono.int64_max. destruct s'; cbn [cond_Zopp]; lia.
Qed.

Lemma within_truncates lo hi s x :
  fp_within lo hi s x -> (hi < IZR (2 ^ 63))%R ->
  truncates_to (fp_value x) (Chrono.to_int64 x).
Proof.
  intros Hw Hhi.
  destruct (to_int64_within lo hi s x Hw Hhi) as (t & -> & Ht0 & Hs & Ht).
  apply IZR_le in Ht0. unfold truncates_to, fp_value. rewrite Hs.
  destruct s; cbn [cond_Zopp]; rewrite ?opp_IZR; split; intros Hv; lra.
Qed.

Lemma within_nonneg lo hi x :
  fp_within lo hi false x -> (hi < IZR (2 ^ 63))%R -> 0 <= Chrono.to_int64 x.
Proof.
  intros Hw Hhi.
  destruct (to_int64_within lo hi false x Hw Hhi) as (t & -> & Ht0 & _).
  exact Ht0.
Qed.

Lemma within_ge k hi x :
  fp_within (IZR k) hi false x -> (hi < IZR (2 ^ 63))%R -> k <= Chrono.to_int64 x.
Proof.
  intros Hw Hhi.
  destruct (to_int64_within _ hi false x Hw Hhi) as (t & -> & Ht0 & _ & Ht).
  cbn [cond_Zopp].
  assert (Hk : (IZR k <= fp_abs x)%R).
  { destruct x as [s' | s' | | s' m e]; cbn [fp_within fp_abs] in *; try contradiction; lra. }
  assert (Hlt : (IZR k < IZR (t + 1))%R) by (rewrite plus_IZR; lra).
  apply lt_IZR in Hlt. lia.
Qed.

Lemma two_e14_lt : (200000000000000 < IZR (2 ^ 63))%R.
Proof. apply IZR_lt. reflexivity. Qed.

(** The conversion back to a 64-bit integer is always defined: the C++
    program has no undefined behaviour there, whatever the two readings. *)
Lemma fp_milliseconds_defined n :
  - 2 ^ 63 <= n < 2 ^ 63 ->
  to_int64_defined (Chrono.fp_milliseconds Chrono.binary32 n) /\
  to_int64_defined (Chrono.fp_milliseconds Chrono.binary64 n).
Proof.
  intros Hn. split.
  - apply (within_defined 0 200000000000000 (n <? 0));
      [apply fp_milliseconds32_bounded; lia | exact two_e14_lt].
  - apply (within_defined 0 200000000000000 (n <? 0));
      [apply fp_milliseconds64_bounded; lia | exact two_e14_lt].
Qed.

Lemma ms_of_ticks_truncates n :
  - 2 ^ 63 <= n < 2 ^ 63 ->
  truncates_to (fp_value (Chrono.fp_milliseconds Chrono.binary32 n))
    (Chrono.ms_of_ticks Chrono.binary32 n) /\
  truncates_to (fp_value (Chrono.fp_milliseconds Chrono.binary64 n))
    (Chrono.ms_of_ticks Chrono.binary64 n).
Proof.
  intros Hn. rewrite !ms_of_ticks_eq. split.
  - apply (within_truncates 0 200000000000000 (n <? 0));
      [apply fp_milliseconds32_bounded; lia | exact two_e14_lt].
  - apply (within_truncates 0 200000000000000 (n <? 0));
      [apply fp_milliseconds64_bounded; lia | exact two_e14_lt].
Qed.

Lemma ms_of_ticks_nonneg n :
  0 <= n < 2 ^ 63 ->
  0 <= Chrono.ms_of_ticks Chrono.binary32 n /\ 0 <= Chrono.ms_of_ticks Chrono.binary64 n.
Proof.
  intros Hn. rewrite !ms_of_ticks_eq.
  assert (Hs : (n <? 0) = false) by (apply Z.ltb_ge; lia).
  split.
  - apply (within_nonneg 0 200000000000000); [| exact two_e14_lt].
    rewrite <- Hs. apply fp_milliseconds32_bounded; lia.
  - apply (within_nonneg 0 200000000000000); [| exact two_e14_lt].
    rewrite <- Hs. apply fp_milliseconds64_bounded; lia.
Qed.

Lemma ms64_of_ticks_ge_1000 n :
  1000000000 <= n < 2 ^ 63 -> 1000 <= Chrono.ms_of_ticks Chrono.binary64 n.
Proof.
  intros Hn. rewrite ms_of_ticks_eq.
  apply (within_ge 1000 200000000000000); [| exact two_e14_lt].
  apply fp_milliseconds64_ge_1000. unfold Chrono.nano_den. lia.
Qed.

(** The wrapper's number is never more than one below a whole number of
    milliseconds that has gone by. *)
Lemma ms64_of_ticks_ge T n :
  0 <= T -> T * 1000000 <= n < 2 ^ 63 -> T - 1 <= Chrono.ms_of_ticks Chrono.binary64 n.
Proof.
  intros HT Hn. rewrite ms_of_ticks_eq.
  destruct (Z.eq_dec n 0) as [-> | Hn0].
  { change (Chrono.to_int64 (Chrono.fp_milliseconds Chrono.binary64 0)) with 0. lia. }
  assert (Hs : (n <? 0) = false) by (apply Z.ltb_ge; lia).
  pose proof (fp_milliseconds64_bounded n ltac:(lia)) as Hw. rewrite Hs in Hw.
  destruct (to_int64_within _ _ _ _ Hw two_e14_lt) as (t & -> & Ht0 & _ & Ht).
  cbn [cond_Zopp].
  pose proof (fp_milliseconds64_lower n ltac:(lia)) as Hlow.
  assert (HTn : (IZR T * 1000000 <= IZR n)%R).
  { rewrite <- mult_IZR. apply IZR_le. lia. }
  assert (Hlt : (IZR (T - 2) < IZR t)%R) by (rewrite minus_IZR; lra).
  apply lt_IZR in Hlt. lia.
Qed.

(** The whole program, started with the clock at its epoch and every sleep
    waking up on time. *)
Example main_at_boot :
  @main nat boot =
    (Returned 0,
     mkWorld 3000000000 true nil
       ("Starting the mock database call" ++ endl ++
        "Ending the mock database call" ++ endl ++
        "function took 1000 ms" ++ endl ++
        "Starting the mock database call" ++ endl ++
        "Ending the mock database call" ++ endl ++
        "function took 1000 ms" ++ endl ++
        "Starting the mock database call" ++ endl ++
        "Ending the mock database call" ++ endl ++
        "function took 1000 ms" ++ endl)).
Proof. vm_compute. reflexivity. Qed.

(** ** The timing wrapper *)

(** C2.  When the callable throws [e], both overloads of [timeit] throw that
    same [e] and leave the world exactly as the callable left it: nothing is
    written after the call, so no report line. *)
Theorem timeit_propagates_exception
    {exn Args R} (func : Args -> M exn R) (funcv : Args -> M exn unit)
    (args : Args) (w w1 w2 : World) (e e' : exn) :
  func args w = (Raised e, w1) ->
  funcv args w = (Raised e', w2) ->
  timeit func args w = (Raised e, w1) /\
  cout (snd (timeit func args w)) = cout w1 /\
  timeit_void funcv args w = (Raised e', w2) /\
  cout (snd (timeit_void funcv args w)) = cout w2.
Proof.
  intros Hf Hv. rewrite timeit_spec, timeit_void_spec, Hf, Hv.
  repeat split.
Qed.

Lemma timeit_propagates_exception_witness :
  failing_call tt boot = (Raised 7%nat, write "about to fail" boot) /\
  timeit failing_call tt boot = (Raised 7%nat, write "about to fail" boot) /\
  cout (snd (timeit failing_call tt boot)) = "about to fail"%string.
Proof.
  split; [reflexivity |].
  pose proof (timeit_propagates_exception failing_call
                (fun _ : unit => throw (A := unit) 3%nat) tt boot
                (write "about to fail" boot) boot 7%nat 3%nat eq_refl eq_refl)
    as (H1 & H2 & _).
  split; [exact H1 | exact H2].
Defined.

(** ** The scope timer *)

(** C8.  A block with a [Timing] that runs [pre], then an inner block with
    its own [Timing] around [inner], then [post]: the inner timer reports
    the time between the entry and the exit of the inner block, the outer one
    the time between the entry and the exit of the outer block, and the
    inner line is on the output before the outer line. *)
Theorem nested_timers_report_inner_first
    {exn A B} (pre : M exn unit) (inner : M exn A) (post : A -> M exn B)
    (w w1 w2 w4 : World) (a : A) (r : outcome exn B) (s : string) :
  pre w = (Returned tt, w1) ->
  inner w1 = (Returned a, w2) ->
  post a (write (report_line (timer_report w1 w2)) w2) = (r, w4) ->
  cout w4 = (cout w2 ++ report_line (timer_report w1 w2) ++ s)%string ->
  with_Timing (pre ;; x <- with_Timing inner ;; post x) w =
    (r, write (report_line (timer_report w w4)) w4) /\
  cout (snd (with_Timing (pre ;; x <- with_Timing inner ;; post x) w)) =
    (cout w2 ++ report_line (timer_report w1 w2) ++ s ++ report_line (timer_report w w4))%string.
Proof.
  intros Hpre Hin Hpost Hout.
  assert (Hbody : (pre ;; x <- with_Timing inner ;; post x) w = (r, w4)).
  { unfold bind at 1. rewrite Hpre. unfold bind. rewrite with_Timing_spec, Hin.
    cbn [fst snd]. exact Hpost. }
  rewrite with_Timing_spec, Hbody. cbn [fst snd]. split; [reflexivity |].
  cbn [write cout]. rewrite Hout, !string_append_assoc. reflexivity.
Qed.

Lemma nested_timers_report_inner_first_witness :
  cout (snd (with_Timing (exn := nat)
               (sleep_for 2000000 ;;
                x <- with_Timing (sleep_for 5000000) ;;
                (fun _ : unit => cout_put "between") x)
               boot)) =
    ("function took 5 ms" ++ endl ++ "between" ++ "function took 7 ms" ++ endl)%string.
Proof.
  exact (proj2 (nested_timers_report_inner_first (exn := nat)
                  (sleep_for 2000000) (sleep_for 5000000)
                  (fun _ : unit => cout_put "between")
                  boot (mkWorld 2000000 true nil "") (mkWorld 7000000 true nil "")
                  (mkWorld 7000000 true nil
                     ("function took 5 ms" ++ endl ++ "between"))
                  tt (Returned tt) "between"
                  eq_refl eq_refl eq_refl eq_refl)).
Defined.

(** ** The number in the report line *)

Lemma timer_report_truncates w w1 :
  timer_report w w1 = Chrono.to_int64 (timer_fp_ms w w1) /\
  to_int64_defined (timer_fp_ms w w1) /\
  truncates_to (fp_value (timer_fp_ms w w1)) (timer_report w w1).
Proof.
  unfold timer_report, timer_fp_ms.
  pose proof (wrap64_range (clock w1 - clock w)) as Hr.
  split; [reflexivity | split].
  - apply (fp_milliseconds_defined _ Hr).
  - apply (ms_of_ticks_truncates _ Hr).
Qed.

Lemma wrapper_report_truncates w w1 :
  wrapper_report w w1 = Chrono.to_int64 (wrapper_fp_ms w w1) /\
  to_int64_defined (wrapper_fp_ms w w1) /\
  truncates_to (fp_value (wrapper_fp_ms w w1)) (wrapper_report w w1).
Proof.
  unfold wrapper_report, wrapper_fp_ms.
  pose proof (wrap64_range (clock w1 - clock w)) as Hr.
  split; [reflexivity | split].
  - apply (fp_milliseconds_defined _ Hr).
  - apply (ms_of_ticks_truncates _ Hr).
Qed.

(** C5, as the code has it.  Every report line of the scope timer and of
    both overloads of the wrapper is [function took <N> ms] followed by a
    line break.  [N] is the truncation toward zero of a floating-point number
    of milliseconds: the tick difference converted to [float] (scope timer) or
    [double] (wrapper), divided by 10^9 and multiplied by 1000, each step
    rounded to nearest.  The conversion of that number to an integer is always
    defined. *)
Theorem report_line_format_and_truncation
    {exn A Args R} (body : M exn A) (func : Args -> M exn R)
    (funcv : Args -> M exn unit) (args : Args) (w w1 w2 : World) (r : R) :
  func args w = (Returned r, w1) ->
  funcv args w = (Returned tt, w2) ->
  (snd (with_Timing body w) =
     write ("function took " ++ show_int64 (timer_report w (snd (body w))) ++ " ms" ++ endl)
       (snd (body w)) /\
   timer_report w (snd (body w)) = Chrono.to_int64 (timer_fp_ms w (snd (body w))) /\
   to_int64_defined (timer_fp_ms w (snd (body w))) /\
   truncates_to (fp_value (timer_fp_ms w (snd (body w)))) (timer_report w (snd (body w)))) /\
  (snd (timeit func args w) =
     write ("function took " ++ show_int64 (wrapper_report w w1) ++ " ms" ++ endl) w1 /\
   wrapper_report w w1 = Chrono.to_int64 (wrapper_fp_ms w w1) /\
   to_int64_defined (wrapper_fp_ms w w1) /\
   truncates_to (fp_value (wrapper_fp_ms w w1)) (wrapper_report w w1)) /\
  (snd (timeit_void funcv args w) =
     write ("function took " ++ show_int64 (wrapper_report w w2) ++ " ms" ++ endl) w2 /\
   truncates_to (fp_value (wrapper_fp_ms w w2)) (wrapper_report w w2)).
Proof.
  intros Hf Hv. rewrite with_Timing_spec, timeit_spec, timeit_void_spec, Hf, Hv.
  cbn [snd]. split; [| split].
  - split; [reflexivity | apply timer_report_truncates].
  - split; [reflexivity | apply wrapper_report_truncates].
  - split; [reflexivity | apply wrapper_report_truncates].
Qed.

Lemma report_line_format_and_truncation_witness :
  cout (snd (with_Timing (exn := nat) (sleep_for 16999999) boot)) =
    ("function took 17 ms" ++ endl)%string /\
  cout (snd (timeit (exn := nat) (fun _ : unit => sleep_for 1001000000 ;; ret 10) tt boot)) =
    ("function took 1000 ms" ++ endl)%string.
Proof.
  pose proof (report_line_format_and_truncation (exn := nat)
                (sleep_for 16999999) (fun _ : unit => sleep_for 1001000000 ;; ret 10)
                (fun _ : unit => sleep_for 1001000000) tt boot
                (mkWorld 1001000000 true nil "") (mkWorld 1001000000 true nil "") 10
                eq_refl eq_refl) as [[H1 _] [[H2 _] _]].
  split.
  - exact (f_equal cout H1).
  - exact (f_equal cout H2).
Defined.

(** C5, as the spec has it, fails: the number printed is not always the
    elapsed time truncated to whole milliseconds.  A callable that takes
    exactly 1001000000 ticks makes the wrapper print 1000, because the
    [double] nearest to 1.001 is below it; a block that takes 16999999 ticks
    makes the scope timer print 17, because [float] has no room for that tick
    count and rounds it to 17000000.  Nor is the number the stored
    floating-point duration truncated: after 9000000 ticks the wrapper holds
    a [double] just below 0.009 seconds and prints 9, because the product by
    1000 is rounded to nearest before the fraction is dropped. *)
Lemma report_is_not_the_truncated_elapsed_time :
  ~ (forall (func : unit -> M nat unit) (w w1 : World),
       func tt w = (Returned tt, w1) ->
       0 <= clock w1 - clock w < 2 ^ 63 ->
       snd (timeit_void func tt w) =
         write (report_line (Z.quot (clock w1 - clock w) 1000000)) w1) /\
  ~ (forall (body : M nat unit) (w : World),
       0 <= clock (snd (body w)) - clock w < 2 ^ 63 ->
       snd (with_Timing body w) =
         write (report_line (Z.quot (clock (snd (body w)) - clock w) 1000000))
           (snd (body w))) /\
  ~ (forall ticks : Z,
       0 <= ticks < 2 ^ 63 ->
       truncates_to
         (fp_value (Chrono.seconds_of_ticks Chrono.binary64 ticks) * 1000)%R
         (Chrono.ms_of_ticks Chrono.binary64 ticks)).
Proof.
  split; [| split]; intros H.
  - specialize (H (blocks_for 1001000000) boot (mkWorld 1001000000 true nil "") eq_refl).
    cbn [clock] in H. specialize (H ltac:(cbn; lia)).
    apply (f_equal cout) in H. vm_compute in H. discriminate H.
  - specialize (H (sleep_for 16999999) boot).
    cbn [clock snd sleep_for boot oversleep hd] in H. specialize (H ltac:(cbn; lia)).
    apply (f_equal cout) in H. vm_compute in H. discriminate H.
  - specialize (H 9000000 ltac:(cbn; lia)).
    change (Chrono.ms_of_ticks Chrono.binary64 9000000) with 9 in H.
    change (Chrono.seconds_of_ticks Chrono.binary64 9000000)
      with (S754_finite false 5188146770730811 (- 59)) in H.
    unfold fp_value in H. cbn [fp_sign fp_abs] in H.
    assert (Hlt : (F2R 5188146770730811 (- 59) * 1000 < 9)%R).
    { replace 1000%R with (F2R 1000 0) by (unfold F2R, bpow; cbn [powerRZ]; lra).
      replace 9%R with (F2R 9 0) by (unfold F2R, bpow; cbn [powerRZ]; lra).
      rewrite F2R_mul, (F2R_change_exp 9 0 (- 59 + 0)) by lia.
      apply F2R_lt_compat. reflexivity. }
    destruct H as [H _].
    pose proof (F2R_pos_gt_0 5188146770730811 (- 59)) as Hpos.
    specialize (H ltac:(lra)). lra.
Qed.

(** C7, as the code has it.  The destructor never throws: it always returns,
    having written its one line, and the conversion it performs is always
    defined.  A block with a [Timing] is therefore always left, by a return
    or by an exception, with the outcome of its body.  The destructor does
    not look at whether the clock could be read: it prints what the reading
    gives. *)
Theorem Timing_dtor_always_completes
    {exn A} (this : Timing) (body : M exn A) (w : World) (available : bool) :
  (exists t' : Timing,
     Timing_dtor (exn := exn) this w =
       (Returned t',
        write (report_line
                 (Chrono.ms_of_ticks Chrono.binary32
                    (Chrono.elapsed (start this) (Chrono.wrap64 (clock w))))) w)) /\
  to_int64_defined
    (Chrono.fp_milliseconds Chrono.binary32
       (Chrono.elapsed (start this) (Chrono.wrap64 (clock w)))) /\
  with_Timing body w =
    (fst (body w), write (report_line (timer_report w (snd (body w)))) (snd (body w))) /\
  cout (snd (Timing_dtor (exn := exn) this
               (mkWorld (clock w) available (oversleep w) (cout w)))) =
    cout (snd (Timing_dtor (exn := exn) this w)).
Proof.
  split; [| split; [| split]].
  - eexists. apply Timing_dtor_spec.
  - apply fp_milliseconds_defined, elapsed_range.
  - apply with_Timing_spec.
  - rewrite !Timing_dtor_spec. reflexivity.
Qed.

(** C7, as the spec has it, fails: there is no duration, zero or other, that
    the destructor falls back to when the clock cannot be read.  With the
    clock unavailable it prints 0 for one reading and 5000 for another. *)
Lemma Timing_dtor_has_no_fallback_duration :
  ~ (exists sentinel : Z,
       forall (this : Timing) (w : World),
         clock_available w = false ->
         snd (Timing_dtor (exn := nat) this w) = write (report_line sentinel) w).
Proof.
  intros [sentinel H].
  pose proof (H (mkTiming 0 0 (S754_zero false)) (mkWorld 0 false nil "") eq_refl) as H0.
  pose proof (H (mkTiming 0 0 (S754_zero false)) (mkWorld 5000000000 false nil "") eq_refl)
    as H1.
  apply (f_equal cout) in H0. apply (f_equal cout) in H1.
  unfold mkWorld in H0, H1.
  cbn [write cout] in H0, H1. cbn [append] in H0, H1.
  rewrite <- H0 in H1. vm_compute in H1. discriminate H1.
Qed.




(** ** Rounding from above, and thresholds under division *)

Section RoundingAbove.

Variables prec emax : Z.
Hypothesis prec_gt_0 : 0 < prec.

Abbreviation emin := (SpecFloat.emin prec emax).
Abbreviation fexp := (SpecFloat.fexp prec emax).
Abbreviation shift_of := (shr_amount prec emax).
Abbreviation representable := (representable_in prec emax).

Lemma shr_fexp_exact_noshift m e :
  shift_of m e = 0 ->
  shr_fexp prec emax m e loc_Exact = (Build_shr_record m false false, e).
Proof.
  unfold shr_amount, shr_fexp, shr. intros Hk.
  destruct (fexp (Zdigits2 m + e) - e) as [| p | p]; [reflexivity | lia | reflexivity].
Qed.

(** [binary_round_aux_shape], with what happens when nothing is shifted out
    of an exact input: the mantissa is kept. *)
Lemma binary_round_aux_shape_exact sx mx ex lx :
  0 <= mx ->
  exists m2,
    mx / 2 ^ shift_of mx ex <= m2 <= mx / 2 ^ shift_of mx ex + 1 /\
    (lx = loc_Exact -> shift_of mx ex = 0 -> m2 = mx) /\
    binary_round_aux prec emax sx mx ex lx =
      match m2 / 2 ^ shift_of m2 (ex + shift_of mx ex) with
      | Z0 => S754_zero sx
      | Zpos m =>
          if ex + shift_of mx ex + shift_of m2 (ex + shift_of mx ex) <=? emax - prec
          then S754_finite sx m (ex + shift_of mx ex + shift_of m2 (ex + shift_of mx ex))
          else S754_infinity sx
      | Zneg _ => S754_nan
      end.
Proof.
  intros Hm. unfold binary_round_aux.
  pose proof (shr_fexp_spec prec emax mx ex lx Hm) as [H1 H2].
  destruct (shr_fexp prec emax mx ex lx) as [mrs1 e1] eqn:Hshr. cbn [fst snd] in H1, H2.
  set (m2 := round_nearest_even (shr_m mrs1) (loc_of_shr_record mrs1)).
  assert (Hb : shr_m mrs1 <= m2 <= shr_m mrs1 + 1) by apply round_nearest_even_bounds.
  assert (H0 : 0 <= mx / 2 ^ shift_of mx ex).
  { apply Z.div_pos; [exact Hm | apply Z.pow_pos_nonneg; [lia | apply shift_of_nonneg]]. }
  assert (Hm2 : 0 <= m2) by lia.
  pose proof (shr_fexp_spec prec emax m2 e1 loc_Exact Hm2) as [H3 H4].
  destruct (shr_fexp prec emax m2 e1 loc_Exact) as [mrs2 e2]. cbn [fst snd] in H3, H4.
  exists m2. split; [lia | split].
  - intros -> Hk. rewrite (shr_fexp_exact_noshift mx ex Hk) in Hshr.
    injection Hshr as <- _. reflexivity.
  - rewrite H3, H4, H2. reflexivity.
Qed.

(** The unit in the last place is small next to the number. *)
Lemma bpow_fexp_le M E :
  0 <= M ->
  E <= fexp (Zdigits2 M + E) ->
  (bpow (fexp (Zdigits2 M + E)) <= bpow (1 - prec) * F2R M E + bpow emin)%R.
Proof.
  intros HM HE.
  pose proof (F2R_ge_0 M E HM) as HX.
  pose proof (bpow_gt_0 (1 - prec)) as Hu. pose proof (bpow_gt_0 emin) as Hmin.
  unfold SpecFloat.fexp in *.
  destruct (Z_le_gt_dec (Zdigits2 M + E - prec) emin) as [Hc | Hc].
  { replace (Z.max _ emin) with emin by lia. nra. }
  replace (Z.max (Zdigits2 M + E - prec) emin) with (Zdigits2 M + E - prec) in * by lia.
  destruct M as [| p | p]; cbn [Zdigits2] in *; try lia.
  replace (Zpos (digits2_pos p) + E - prec) with (1 - prec + (Zpos (digits2_pos p) - 1 + E)) by lia.
  rewrite bpow_add. pose proof (F2R_pos_ge_bpow p E). nra.
Qed.

Lemma binary_round_aux_rel_upper sx mx ex lx lo hi :
  0 <= mx ->
  lx = loc_Exact \/ ex <= fexp (Zdigits2 mx + ex) ->
  fp_within lo hi sx (binary_round_aux prec emax sx mx ex lx) ->
  (fp_abs (binary_round_aux prec emax sx mx ex lx) <=
   F2R mx ex + bpow (1 - prec) * F2R mx ex + bpow emin)%R.
Proof.
  intros Hmx Hloc.
  destruct (binary_round_aux_shape_exact sx mx ex lx Hmx) as (m2 & Hm2 & Hex & ->).
  set (k1 := shift_of mx ex) in *. set (e1 := ex + k1) in *.
  set (k2 := shift_of m2 e1) in *.
  pose proof (shift_of_nonneg prec emax mx ex) as Hk1. fold k1 in Hk1.
  pose proof (shift_of_nonneg prec emax m2 e1) as Hk2. fold k2 in Hk2.
  assert (H1 : 0 <= mx / 2 ^ k1) by (apply Z.div_pos; [lia | apply Z.pow_pos_nonneg; lia]).
  assert (Hm2' : 0 <= m2) by lia.
  pose proof (F2R_ge_0 mx ex Hmx) as HX.
  pose proof (bpow_gt_0 (1 - prec)) as Hu. pose proof (bpow_gt_0 emin) as Hmin.
  assert (Hv2 : (F2R m2 e1 <= F2R mx ex + bpow (1 - prec) * F2R mx ex + bpow emin)%R).
  { destruct (Z_le_gt_dec ex (fexp (Zdigits2 mx + ex))) as [Hge | Hlt].
    - assert (He1 : e1 = fexp (Zdigits2 mx + ex)).
      { unfold e1, k1, shr_amount. lia. }
      apply Rle_trans with (F2R (mx / 2 ^ k1 + 1) e1); [apply F2R_le_compat; lia |].
      pose proof (F2R_shift_le mx ex k1 Hmx Hk1) as Ha. fold e1 in Ha.
      pose proof (bpow_fexp_le mx ex Hmx Hge) as Hb. rewrite <- He1 in Hb.
      unfold F2R in *. rewrite plus_IZR. lra.
    - assert (Hk0 : k1 = 0) by (unfold k1, shr_amount; lia).
      destruct Hloc as [Hl | Hl]; [| lia].
      rewrite (Hex Hl Hk0). unfold e1. rewrite Hk0, Z.add_0_r. nra. }
  assert (Hv3 : (F2R (m2 / 2 ^ k2) (e1 + k2) <= F2R m2 e1)%R) by (apply F2R_shift_le; lia).
  intros Hw. destruct (m2 / 2 ^ k2) as [| m | m] eqn:Hm3.
  - cbn [fp_abs]. nra.
  - destruct (e1 + k2 <=? emax - prec); cbn [fp_within] in Hw; [| contradiction].
    cbn [fp_abs]. lra.
  - cbn [fp_within] in Hw. contradiction.
Qed.

Lemma binary_round_rel_upper sx mx ex lo hi :
  fp_within lo hi sx (binary_round prec emax sx mx ex) ->
  (fp_abs (binary_round prec emax sx mx ex) <=
   F2R (Zpos mx) ex + bpow (1 - prec) * F2R (Zpos mx) ex + bpow emin)%R.
Proof.
  unfold binary_round.
  pose proof (shl_align_spec mx ex (fexp (Zpos (digits2_pos mx) + ex))) as [Hv He].
  destruct (shl_align mx ex (fexp (Zpos (digits2_pos mx) + ex))) as [mz ez].
  cbn [fst snd] in Hv, He. intros Hw. rewrite <- Hv.
  apply (binary_round_aux_rel_upper sx (Zpos mz) ez loc_Exact lo hi);
    [lia | left; reflexivity | exact Hw].
Qed.

Lemma SFmul_rel_upper sx mx ex sy my ey lo hi :
  fp_within lo hi (xorb sx sy)
    (SFmul prec emax (S754_finite sx mx ex) (S754_finite sy my ey)) ->
  (fp_abs (SFmul prec emax (S754_finite sx mx ex) (S754_finite sy my ey)) <=
   F2R (Zpos mx) ex * F2R (Zpos my) ey
   + bpow (1 - prec) * (F2R (Zpos mx) ex * F2R (Zpos my) ey) + bpow emin)%R.
Proof.
  cbn [SFmul]. intros Hw.
  rewrite F2R_mul. rewrite <- Pos2Z.inj_mul.
  apply (binary_round_aux_rel_upper _ _ _ _ lo hi); [lia | left; reflexivity | exact Hw].
Qed.

(** Facts about the integer quotient [SFdiv_core_binary] hands to the
    rounding: it is at most the exact quotient, it has at least as many bits
    as the format keeps, and nothing below the last kept bit is left in it. *)
Lemma SFdiv_quotient mx ex my ey :
  let g := Zpos (digits2_pos mx) + ex - (Zpos (digits2_pos my) + ey) in
  let e' := Z.min (fexp g) (ex - ey) in
  let q := Zpos mx * 2 ^ (ex - ey - e') / Zpos my in
  0 <= q /\
  (F2R q e' * F2R (Zpos my) ey <= F2R (Zpos mx) ex)%R /\
  (emin < e' -> e' <= g - prec /\ 2 ^ (g - 1 - e') <= q) /\
  e' <= fexp (Zdigits2 q + e').
Proof.
  intros g e' q.
  assert (Hs : 0 <= ex - ey - e') by (unfold e'; lia).
  assert (H2s : 0 < 2 ^ (ex - ey - e')) by (apply Z.pow_pos_nonneg; lia).
  assert (Hq0 : 0 <= q) by (apply Z.div_pos; lia).
  assert (Hscale : F2R (Zpos mx * 2 ^ (ex - ey - e')) (e' + ey) = F2R (Zpos mx) ex).
  { replace (ex - ey - e') with (ex - (e' + ey)) by lia.
    symmetry. apply F2R_change_exp. lia. }
  assert (HqY : (F2R q e' * F2R (Zpos my) ey <= F2R (Zpos mx) ex)%R).
  { rewrite F2R_mul, <- Hscale. apply F2R_le_compat.
    unfold q. rewrite Z.mul_comm. apply Z.mul_div_le. lia. }
  assert (Hbig : emin < e' -> e' <= g - prec /\ 2 ^ (g - 1 - e') <= q).
  { intros He.
    assert (Hge : e' <= g - prec) by (unfold e', SpecFloat.fexp in *; lia).
    split; [exact Hge |].
    unfold q. apply Z.div_le_lower_bound; [lia |].
    apply (F2R_le_inv _ _ (e' + ey)). rewrite Hscale.
    rewrite Z.mul_comm, <- F2R_mul.
    replace (F2R (2 ^ (g - 1 - e')) e') with (bpow (g - 1))
      by (rewrite <- F2R_1, (F2R_change_exp 1 (g - 1) e'), Z.mul_1_l by lia; reflexivity).
    apply Rle_trans with (bpow (g - 1) * bpow (Zpos (digits2_pos my) + ey))%R.
    - apply Rmult_le_compat_l; [apply Rlt_le, bpow_gt_0 |].
      apply Rlt_le, F2R_pos_lt_bpow.
    - rewrite <- bpow_add.
      replace (g - 1 + (Zpos (digits2_pos my) + ey)) with (Zpos (digits2_pos mx) - 1 + ex)
        by (unfold g; lia).
      apply F2R_pos_ge_bpow. }
  split; [exact Hq0 | split; [exact HqY | split; [exact Hbig |]]].
  destruct (Z_le_gt_dec e' emin) as [Hc | Hc].
  { unfold SpecFloat.fexp. lia. }
  destruct (Hbig ltac:(lia)) as [Hge Hq].
  assert (Hpos : 0 < 2 ^ (g - 1 - e')) by (apply Z.pow_pos_nonneg; lia).
  destruct q as [| p | p] eqn:Hqe; try lia.
  cbn [Zdigits2].
  pose proof (digits2_pos_bounds p) as [_ Hd].
  assert (Hlt : 2 ^ (g - 1 - e') < 2 ^ Zpos (digits2_pos p)) by lia.
  apply Z.pow_lt_mono_r_iff in Hlt; [| lia | lia].
  unfold SpecFloat.fexp. lia.
Qed.

(** [r] is any upper bound of the exact quotient. *)
Lemma SFdiv_rel_upper sx mx ex sy my ey lo hi r :
  fp_within lo hi (xorb sx sy)
    (SFdiv prec emax (S754_finite sx mx ex) (S754_finite sy my ey)) ->
  (F2R (Zpos mx) ex <= r * F2R (Zpos my) ey)%R ->
  (fp_abs (SFdiv prec emax (S754_finite sx mx ex) (S754_finite sy my ey)) <=
   r + bpow (1 - prec) * r + bpow emin)%R.
Proof.
  cbn [SFdiv].
  destruct (SFdiv_core_binary_spec prec emax mx ex my ey) as [l ->].
  destruct (SFdiv_quotient mx ex my ey) as (Hq0 & HqY & _ & Hfexp).
  set (g := Zpos (digits2_pos mx) + ex - (Zpos (digits2_pos my) + ey)) in *.
  set (e' := Z.min (fexp g) (ex - ey)) in *.
  set (q := Zpos mx * 2 ^ (ex - ey - e') / Zpos my) in *.
  intros Hw Hr.
  pose proof (F2R_pos_gt_0 my ey) as HY.
  pose proof (bpow_gt_0 (1 - prec)) as Hu.
  assert (Hqr : (F2R q e' <= r)%R).
  { apply Rmult_le_reg_r with (F2R (Zpos my) ey); [exact HY | lra]. }
  pose proof (binary_round_aux_rel_upper (xorb sx sy) q e' l lo hi Hq0
                (or_intror Hfexp) Hw) as Hrnd.
  pose proof (F2R_ge_0 q e' Hq0). nra.
Qed.

(** A rounded number is at least any threshold the format holds that the
    exact number reaches. *)
Lemma binary_round_aux_ge_repr sx mx ex lx cm ce lo hi :
  0 < mx ->
  representable cm ce ->
  (F2R cm ce <= F2R mx ex)%R ->
  fp_within lo hi sx (binary_round_aux prec emax sx mx ex lx) ->
  (F2R cm ce <= fp_abs (binary_round_aux prec emax sx mx ex lx))%R.
Proof.
  intros Hpos Hrep Hle.
  destruct (binary_round_aux_shape prec emax sx mx ex lx ltac:(lia))
    as (m2 & Hm2 & ->).
  pose proof (shift_ge_repr prec emax prec_gt_0 mx ex cm ce Hpos Hrep Hle) as Ha.
  assert (Hc0 : (0 < F2R cm ce)%R).
  { destruct Hrep as [Hcm _]. replace 0%R with (F2R 0 ce) by (unfold F2R; lra).
    apply F2R_lt_compat. lia. }
  assert (Hm2p : 0 < m2).
  { destruct (Z_lt_le_dec 0 m2) as [Hp | Hp]; [exact Hp |].
    assert (Hz : mx / 2 ^ shift_of mx ex <= 0) by lia.
    apply (F2R_le_compat _ _ (ex + shift_of mx ex)) in Hz.
    unfold F2R at 2 in Hz. lra. }
  assert (Hb' : (F2R cm ce <= F2R m2 (ex + shift_of mx ex))%R).
  { apply Rle_trans with (1 := Ha). apply F2R_le_compat. lia. }
  pose proof (shift_ge_repr prec emax prec_gt_0 m2 (ex + shift_of mx ex) cm ce
                Hm2p Hrep Hb') as Hb.
  intros Hw. destruct (m2 / 2 ^ _) as [| m3 | m3] eqn:Hm3.
  - unfold F2R at 2 in Hb. lra.
  - destruct (_ <=? _); cbn [fp_within] in Hw; [| contradiction].
    cbn [fp_abs]. exact Hb.
  - cbn [fp_within] in Hw. contradiction.
Qed.

(** [SFdiv_within] for any threshold the format holds: the quotient of a
    number that is at least [c] times the divisor is at least [c]. *)
Lemma SFdiv_within_repr sx mx ex sy my ey cm ce hi r :
  representable cm ce ->
  (F2R cm ce * F2R (Zpos my) ey <= F2R (Zpos mx) ex)%R ->
  (F2R (Zpos mx) ex <= r * F2R (Zpos my) ey)%R ->
  (3 * r + 2 * bpow emin <= hi)%R ->
  (hi < bpow (emax - prec + 1))%R ->
  fp_within (F2R cm ce) hi (xorb sx sy)
    (SFdiv prec emax (S754_finite sx mx ex) (S754_finite sy my ey)).
Proof.
  intros Hrep Hle Hr Hhi Hfin.
  pose proof (SFdiv_within prec emax prec_gt_0 sx mx ex sy my ey 0 hi r
                (or_introl (Rle_refl 0)) Hr Hhi Hfin) as Hw.
  assert (Hlow : (F2R cm ce <=
                  fp_abs (SFdiv prec emax (S754_finite sx mx ex) (S754_finite sy my ey)))%R).
  { revert Hw. cbn [SFdiv].
    destruct (SFdiv_core_binary_spec prec emax mx ex my ey) as [l ->].
    destruct (SFdiv_quotient mx ex my ey) as (Hq0 & HqY & Hbig & _).
    set (g := Zpos (digits2_pos mx) + ex - (Zpos (digits2_pos my) + ey)) in *.
    set (e' := Z.min (fexp g) (ex - ey)) in *.
    set (q := Zpos mx * 2 ^ (ex - ey - e') / Zpos my) in *.
    assert (Hs : 0 <= ex - ey - e') by (unfold e'; lia).
    assert (H2s : 0 < 2 ^ (ex - ey - e')) by (apply Z.pow_pos_nonneg; lia).
    assert (Hscale : F2R (Zpos mx * 2 ^ (ex - ey - e')) (e' + ey) = F2R (Zpos mx) ex).
    { replace (ex - ey - e') with (ex - (e' + ey)) by lia.
      symmetry. apply F2R_change_exp. lia. }
    assert (Hcq : (F2R cm ce <= F2R q e')%R /\ 0 < q).
    { destruct Hrep as [Hcm Hce].
      destruct (Z_le_gt_dec e' ce) as [Hc | Hc].
      - assert (Hz : cm * 2 ^ (ce - e') <= q).
        { unfold q. apply Z.div_le_lower_bound; [lia |].
          apply (F2R_le_inv _ _ (e' + ey)). rewrite Hscale.
          rewrite Z.mul_comm, <- F2R_mul, <- F2R_change_exp by exact Hc. exact Hle. }
        assert (0 < cm * 2 ^ (ce - e'))
          by (apply Z.mul_pos_pos; [lia | apply Z.pow_pos_nonneg; lia]).
        split; [| lia].
        rewrite (F2R_change_exp cm ce e') by exact Hc. apply F2R_le_compat. exact Hz.
      - destruct (Hbig ltac:(lia)) as [Hge Hq].
        assert (0 < 2 ^ (g - 1 - e')) by (apply Z.pow_pos_nonneg; lia).
        split; [| lia].
        apply Rle_trans with (F2R (2 ^ prec) ce); [apply F2R_le_compat; lia |].
        apply Rle_trans with (F2R 1 (g - 1)).
        + rewrite (F2R_change_exp 1 (g - 1) ce) by lia. apply F2R_le_compat.
          rewrite Z.mul_1_l. apply Z.pow_le_mono_r; lia.
        + rewrite (F2R_change_exp 1 (g - 1) e') by lia. apply F2R_le_compat. lia. }
    destruct Hcq as [Hcq Hqpos].
    apply (binary_round_aux_ge_repr _ _ _ _ _ _ 0 hi Hqpos Hrep Hcq). }
  destruct (SFdiv prec emax (S754_finite sx mx ex) (S754_finite sy my ey))
    as [s0 | s0 | | s0 m0 e0]; cbn [fp_within fp_abs] in *; try contradiction.
  - destruct Hw as [Hs0 _]. split; [exact Hs0 | exact Hlow].
  - destruct Hw as [Hs0 [_ Hup]]. split; [exact Hs0 | split; [exact Hlow | exact Hup]].
Qed.

End RoundingAbove.

(** ** The three roundings of the program, from both sides *)

Section PipelineBounds.

Variable f : Chrono.fp_format.
Variables mb mk : positive.
Variables eb ek : Z.

Hypothesis prec_ge_2 : 2 <= Chrono.prec f.
Hypothesis emin_le_0 : emin (Chrono.prec f) (Chrono.emax f) <= 0.
Hypothesis emax_ge : 65 <= Chrono.emax f - Chrono.prec f + 1.
Hypothesis nano_eq : Chrono.of_int64 f Chrono.nano_den = S754_finite false mb eb.
Hypothesis nano_val : F2R (Zpos mb) eb = IZR Chrono.nano_den.
Hypothesis milli_eq : Chrono.of_int64 f Chrono.milli_den = S754_finite false mk ek.
Hypothesis milli_val : F2R (Zpos mk) ek = IZR Chrono.milli_den.

(** With [u] one unit in the last place of 1 and [eta] the smallest positive
    number of the format: the tick count [n] becomes a floating-point [x]
    within [u * n + eta] of it, the seconds [y] are within [3u * x/10^9 + 3eta]
    of [x / 10^9], and the milliseconds within [2u * 1000y + 2eta] of
    [1000 * y]. *)
Lemma fp_milliseconds_chain n :
  0 < n <= 2 ^ 63 ->
  exists x y : R,
    (0 <= x)%R /\ (0 <= y)%R /\
    (IZR n - 2 * bpow (1 - Chrono.prec f) * IZR n
       - 2 * bpow (emin (Chrono.prec f) (Chrono.emax f)) <= x)%R /\
    (x <= IZR n + bpow (1 - Chrono.prec f) * IZR n
            + bpow (emin (Chrono.prec f) (Chrono.emax f)))%R /\
    (x / 1000000000 - 3 * bpow (1 - Chrono.prec f) * (x / 1000000000)
       - 3 * bpow (emin (Chrono.prec f) (Chrono.emax f)) <= y)%R /\
    (y <= x / 1000000000 + bpow (1 - Chrono.prec f) * (x / 1000000000)
            + bpow (emin (Chrono.prec f) (Chrono.emax f)))%R /\
    (y * 1000 - 2 * bpow (1 - Chrono.prec f) * (y * 1000)
       - 2 * bpow (emin (Chrono.prec f) (Chrono.emax f)) <=
     fp_abs (Chrono.fp_milliseconds f n))%R /\
    (fp_abs (Chrono.fp_milliseconds f n) <=
     y * 1000 + bpow (1 - Chrono.prec f) * (y * 1000)
       + bpow (emin (Chrono.prec f) (Chrono.emax f)))%R.
Proof.
  intros Hn.
  assert (prec_gt_0 : 0 < Chrono.prec f) by lia.
  pose proof (bpow_emin_le_1 f emin_le_0) as Hmin.
  pose proof (bpow_top_ge f emax_ge) as Htop.
  pose proof (bpow_gt_0 (emin (Chrono.prec f) (Chrono.emax f))) as Hmin0.
  pose proof (bpow_gt_0 (1 - Chrono.prec f)) as Hu.
  assert (H65 : IZR (2 ^ 65) = 36893488147419103232%R) by reflexivity.
  unfold Chrono.fp_milliseconds, Chrono.seconds_of_ticks, Chrono.fmul, Chrono.fdiv.
  rewrite nano_eq, milli_eq.
  rewrite (of_int64_nonzero f n) by lia.
  replace (n <? 0) with false by (symmetry; apply Z.ltb_ge; lia).
  assert (Hv : F2R (Zpos (Z.to_pos (Z.abs n))) 0 = IZR n).
  { unfold F2R, bpow. cbn [powerRZ]. rewrite Rmult_1_r, Z2Pos.id by lia.
    f_equal. lia. }
  assert (Hn1 : (0 < IZR n <= 9223372036854775808)%R).
  { split; [apply IZR_lt; lia | apply IZR_le; change 9223372036854775808 with (2 ^ 63); lia]. }
  assert (Hx : fp_within 0 18446744073709551618 false
                 (binary_round (Chrono.prec f) (Chrono.emax f) false (Z.to_pos (Z.abs n)) 0)).
  { apply binary_round_within; [exact prec_gt_0 | left; lra | | lra].
    rewrite Hv. replace (bpow 0) with 1%R by reflexivity. lra. }
  pose proof (binary_round_rel_lower _ _ prec_gt_0 _ _ _ _ _ Hx) as Hxl.
  pose proof (binary_round_rel_upper _ _ prec_gt_0 _ _ _ _ _ Hx) as Hxu.
  rewrite Hv in Hxl, Hxu.
  exists (fp_abs (binary_round (Chrono.prec f) (Chrono.emax f) false (Z.to_pos (Z.abs n)) 0)).
  destruct (binary_round _ _ false _ 0) as [sx | sx | | sx mx ex]; cbn [fp_within] in Hx;
    try contradiction.
  { exists 0%R. cbn [fp_abs SFdiv SFmul] in *. repeat split; lra. }
  destruct Hx as [-> [Hx0 Hx1]]. cbn [fp_abs] in Hxl, Hxu |- *.
  assert (Hy : fp_within 0 60000000002 (xorb false false)
                 (SFdiv (Chrono.prec f) (Chrono.emax f) (S754_finite false mx ex)
                    (S754_finite false mb eb))).
  { apply SFdiv_within with (r := 20000000000%R); [exact prec_gt_0 | left; lra | | lra | lra].
    rewrite nano_val. unfold Chrono.nano_den. lra. }
  assert (Hyl := SFdiv_rel_lower _ _ prec_gt_0 _ _ _ _ _ _ _ _
                   (F2R (Zpos mx) ex / 1000000000) prec_ge_2 Hy).
  assert (Hyu := SFdiv_rel_upper _ _ prec_gt_0 _ _ _ _ _ _ _ _
                   (F2R (Zpos mx) ex / 1000000000) Hy).
  rewrite nano_val in Hyl, Hyu. unfold Chrono.nano_den in Hyl, Hyu.
  specialize (Hyl ltac:(lra) ltac:(lra)). specialize (Hyu ltac:(lra)).
  cbn [xorb] in Hy.
  exists (fp_abs (SFdiv (Chrono.prec f) (Chrono.emax f) (S754_finite false mx ex)
                    (S754_finite false mb eb))).
  destruct (SFdiv _ _ _ _) as [sy | sy | | sy my ey]; cbn [fp_within] in Hy;
    try contradiction.
  { cbn [fp_abs SFmul] in *. repeat split; lra. }
  destruct Hy as [-> [Hy0 Hy1]]. cbn [fp_abs] in Hyl, Hyu |- *.
  assert (Hz : fp_within 0 200000000000000 (xorb false false)
                 (SFmul (Chrono.prec f) (Chrono.emax f) (S754_finite false my ey)
                    (S754_finite false mk ek))).
  { apply SFmul_within; [exact prec_gt_0 | left; lra | | lra].
    rewrite milli_val. unfold Chrono.milli_den. lra. }
  pose proof (SFmul_rel_lower _ _ prec_gt_0 _ _ _ _ _ _ _ _ Hz) as Hzl.
  pose proof (SFmul_rel_upper _ _ prec_gt_0 _ _ _ _ _ _ _ _ Hz) as Hzu.
  rewrite milli_val in Hzl, Hzu. unfold Chrono.milli_den in Hzl, Hzu.
  repeat split; try lra.
Qed.

Hypothesis nano_repr : representable_in (Chrono.prec f) (Chrono.emax f) (Zpos mb) eb.
Hypothesis milli_repr : representable_in (Chrono.prec f) (Chrono.emax f) (Zpos mk) ek.

(** [fp_milliseconds_ge_1000] for any format of at least two bits. *)
Lemma fp_milliseconds_ge_1000_any n :
  Chrono.nano_den <= n <= 2 ^ 63 ->
  fp_within 1000 200000000000000 false (Chrono.fp_milliseconds f n).
Proof.
  intros Hn.
  assert (prec_gt_0 : 0 < Chrono.prec f) by lia.
  pose proof (bpow_emin_le_1 f emin_le_0) as Hmin.
  pose proof (bpow_top_ge f emax_ge) as Htop.
  pose proof (bpow_gt_0 (emin (Chrono.prec f) (Chrono.emax f))) as Hmin0.
  assert (H65 : IZR (2 ^ 65) = 36893488147419103232%R) by reflexivity.
  unfold Chrono.fp_milliseconds, Chrono.seconds_of_ticks, Chrono.fmul, Chrono.fdiv.
  rewrite nano_eq, milli_eq.
  unfold Chrono.nano_den in Hn.
  rewrite (of_int64_nonzero f n) by lia.
  replace (n <? 0) with false by (symmetry; apply Z.ltb_ge; lia).
  assert (Hv : F2R (Zpos (Z.to_pos (Z.abs n))) 0 = IZR n).
  { unfold F2R, bpow. cbn [powerRZ]. rewrite Rmult_1_r, Z2Pos.id by lia.
    f_equal. lia. }
  assert (Hn1 : (1000000000 <= IZR n <= 9223372036854775808)%R).
  { split; apply IZR_le; [lia | change 9223372036854775808 with (2 ^ 63); lia]. }
  assert (Hx : fp_within 1000000000 18446744073709551618 false
                 (binary_round (Chrono.prec f) (Chrono.emax f) false (Z.to_pos (Z.abs n)) 0)).
  { apply binary_round_within; [exact prec_gt_0 | right | | lra].
    - exists (Zpos mb), eb. rewrite Hv, nano_val. unfold Chrono.nano_den.
      split; [exact nano_repr | split; [reflexivity | lra]].
    - rewrite Hv. replace (bpow 0) with 1%R by reflexivity. lra. }
  destruct (binary_round _ _ false _ 0) as [sx | sx | | sx mx ex]; cbn [fp_within] in Hx;
    try contradiction.
  { destruct Hx as [_ Hx]. lra. }
  destruct Hx as [-> [Hx0 Hx1]].
  assert (Hy : fp_within (F2R 1 0) 60000000002 (xorb false false)
                 (SFdiv (Chrono.prec f) (Chrono.emax f) (S754_finite false mx ex)
                    (S754_finite false mb eb))).
  { apply SFdiv_within_repr with (r := 20000000000%R); [exact prec_gt_0 | | | | lra | lra].
    - split; [| exact emin_le_0].
      split; [lia |]. apply Z.lt_pred_le, Z.pow_pos_nonneg; lia.
    - rewrite nano_val. unfold Chrono.nano_den.
      replace (F2R 1 0) with 1%R by (unfold F2R, bpow; cbn [powerRZ]; lra). lra.
    - rewrite nano_val. unfold Chrono.nano_den. lra. }
  replace (F2R 1 0) with 1%R in Hy by (unfold F2R, bpow; cbn [powerRZ]; lra).
  cbn [xorb] in Hy.
  destruct (SFdiv _ _ _ _) as [sy | sy | | sy my ey]; cbn [fp_within] in Hy;
    try contradiction.
  { destruct Hy as [_ Hy]. lra. }
  destruct Hy as [-> [Hy0 Hy1]].
  change false with (xorb false false) at 1.
  apply SFmul_within; [exact prec_gt_0 | right | | lra].
  - exists (Zpos mk), ek. rewrite milli_val. unfold Chrono.milli_den.
    split; [exact milli_repr | split; [reflexivity | nra]].
  - rewrite milli_val. unfold Chrono.milli_den. lra.
Qed.

End PipelineBounds.

(** ** The two formats of the program *)

Lemma fp_milliseconds64_chain n :
  0 < n <= 2 ^ 63 ->
  exists x y eta : R,
    (0 <= x)%R /\ (0 <= y)%R /\ (0 < eta <= / 1267650600228229401496703205376)%R /\
    (IZR n - 2 * / 4503599627370496 * IZR n - 2 * eta <= x)%R /\
    (x <= IZR n + / 4503599627370496 * IZR n + eta)%R /\
    (x / 1000000000 - 3 * / 4503599627370496 * (x / 1000000000) - 3 * eta <= y)%R /\
    (y <= x / 1000000000 + / 4503599627370496 * (x / 1000000000) + eta)%R /\
    (y * 1000 - 2 * / 4503599627370496 * (y * 1000) - 2 * eta <=
     fp_abs (Chrono.fp_milliseconds Chrono.binary64 n))%R /\
    (fp_abs (Chrono.fp_milliseconds Chrono.binary64 n) <=
     y * 1000 + / 4503599627370496 * (y * 1000) + eta)%R.
Proof.
  intros Hn.
  destruct (fp_milliseconds_chain Chrono.binary64 8388608000000000 8796093022208000
              (-23) (-43)) with (n := n) as (x & y & H);
    try reflexivity; try (apply F2R_exact; reflexivity); try (cbn; lia);
    try (unfold emin; cbn; lia).
  exists x, y, (bpow (emin (Chrono.prec Chrono.binary64) (Chrono.emax Chrono.binary64))).
  replace (bpow (1 - Chrono.prec Chrono.binary64)) with (/ 4503599627370496)%R in H
    by (symmetry; exact (bpow_neg 52 ltac:(lia))).
  destruct H as (H1 & H2 & H3).
  split; [exact H1 | split; [exact H2 | split; [| exact H3]]].
  split; [apply bpow_gt_0 |].
  apply Rle_trans with (bpow (Z.opp 100)); [apply bpow_le; unfold emin; cbn; lia |].
  rewrite bpow_neg by lia. apply Rle_refl.
Qed.

Lemma fp_milliseconds32_chain n :
  0 < n <= 2 ^ 63 ->
  exists x y eta : R,
    (0 <= x)%R /\ (0 <= y)%R /\ (0 < eta <= / 1267650600228229401496703205376)%R /\
    (IZR n - 2 * / 8388608 * IZR n - 2 * eta <= x)%R /\
    (x <= IZR n + / 8388608 * IZR n + eta)%R /\
    (x / 1000000000 - 3 * / 8388608 * (x / 1000000000) - 3 * eta <= y)%R /\
    (y <= x / 1000000000 + / 8388608 * (x / 1000000000) + eta)%R /\
    (y * 1000 - 2 * / 8388608 * (y * 1000) - 2 * eta <=
     fp_abs (Chrono.fp_milliseconds Chrono.binary32 n))%R /\
    (fp_abs (Chrono.fp_milliseconds Chrono.binary32 n) <=
     y * 1000 + / 8388608 * (y * 1000) + eta)%R.
Proof.
  intros Hn.
  destruct (fp_milliseconds_chain Chrono.binary32 15625000 16384000 6 (-14))
    with (n := n) as (x & y & H);
    try reflexivity; try (apply F2R_exact; reflexivity); try (cbn; lia);
    try (unfold emin; cbn; lia).
  exists x, y, (bpow (emin (Chrono.prec Chrono.binary32) (Chrono.emax Chrono.binary32))).
  replace (bpow (1 - Chrono.prec Chrono.binary32)) with (/ 8388608)%R in H
    by (symmetry; exact (bpow_neg 23 ltac:(lia))).
  destruct H as (H1 & H2 & H3).
  split; [exact H1 | split; [exact H2 | split; [| exact H3]]].
  split; [apply bpow_gt_0 |].
  apply Rle_trans with (bpow (Z.opp 100)); [apply bpow_le; unfold emin; cbn; lia |].
  rewrite bpow_neg by lia. apply Rle_refl.
Qed.

Lemma fp_milliseconds32_ge_1000 n :
  Chrono.nano_den <= n <= 2 ^ 63 ->
  fp_within 1000 200000000000000 false (Chrono.fp_milliseconds Chrono.binary32 n).
Proof.
  apply (fp_milliseconds_ge_1000_any Chrono.binary32 15625000 16384000 6 (-14));
    try reflexivity; try (apply F2R_exact; reflexivity); try (cbn; lia);
    try (unfold emin; cbn; lia); unfold representable_in, emin; cbn; lia.
Qed.

(** The printed number as the integer part of a non-negative real. *)
Lemma ms_of_ticks_floor n :
  0 <= n < 2 ^ 63 ->
  (exists t, Chrono.ms_of_ticks Chrono.binary32 n = t /\ 0 <= t /\
     (IZR t <= fp_abs (Chrono.fp_milliseconds Chrono.binary32 n) < IZR t + 1)%R) /\
  (exists t, Chrono.ms_of_ticks Chrono.binary64 n = t /\ 0 <= t /\
     (IZR t <= fp_abs (Chrono.fp_milliseconds Chrono.binary64 n) < IZR t + 1)%R).
Proof.
  intros Hn. rewrite !ms_of_ticks_eq.
  assert (Hs : (n <? 0) = false) by (apply Z.ltb_ge; lia).
  split.
  - pose proof (fp_milliseconds32_bounded n ltac:(lia)) as Hw. rewrite Hs in Hw.
    destruct (to_int64_within _ _ _ _ Hw two_e14_lt) as (t & -> & Ht0 & _ & Ht).
    exists t. cbn [cond_Zopp]. repeat split; try assumption; lra.
  - pose proof (fp_milliseconds64_bounded n ltac:(lia)) as Hw. rewrite Hs in Hw.
    destruct (to_int64_within _ _ _ _ Hw two_e14_lt) as (t & -> & Ht0 & _ & Ht).
    exists t. cbn [cond_Zopp]. repeat split; try assumption; lra.
Qed.

Lemma IZR_div_mod n :
  0 <= n ->
  IZR n = (IZR (n / 1000000) * 1000000 + IZR (n mod 1000000))%R /\
  (0 <= IZR (n mod 1000000) <= 999999)%R.
Proof.
  intros Hn.
  pose proof (Z.div_mod n 1000000 ltac:(lia)) as Hdm.
  pose proof (Z.mod_pos_bound n 1000000 ltac:(lia)) as Hr.
  split.
  - rewrite Hdm at 1. rewrite plus_IZR, mult_IZR. lra.
  - split; apply IZR_le; lia.
Qed.

(** The wrapper's number is within one of the elapsed whole milliseconds,
    for any elapsed time the 64-bit count can hold. *)
Lemma ms64_of_ticks_near n :
  0 <= n < 2 ^ 63 ->
  n / 1000000 - 1 <= Chrono.ms_of_ticks Chrono.binary64 n <= n / 1000000 + 1.
Proof.
  intros Hn.
  destruct (Z.eq_dec n 0) as [-> | Hn0]; [vm_compute; split; discriminate |].
  destruct (proj2 (ms_of_ticks_floor n Hn)) as (t & -> & Ht0 & Ht).
  destruct (fp_milliseconds64_chain n ltac:(lia))
    as (x & y & eta & Hx0 & Hy0 & He & Hxl & Hxu & Hyl & Hyu & Hzl & Hzu).
  destruct (IZR_div_mod n ltac:(lia)) as [Hdm Hr].
  assert (Hn1 : (IZR n <= 9223372036854775808)%R).
  { apply IZR_le. change 9223372036854775808 with (2 ^ 63). lia. }
  assert (Hk0 : (0 <= IZR (n / 1000000))%R) by (apply IZR_le, Z.div_pos; lia).
  split.
  - assert (Hlt : (IZR (n / 1000000 - 2) < IZR t)%R) by (rewrite minus_IZR; lra).
    apply lt_IZR in Hlt. lia.
  - assert (Hlt : (IZR t < IZR (n / 1000000 + 2))%R) by (rewrite plus_IZR; lra).
    apply lt_IZR in Hlt. lia.
Qed.

(** Below 2^49 ticks (six and a half days) the wrapper's number is the
    elapsed whole milliseconds, unless the elapsed time is itself a whole
    number of milliseconds, where it can be one less. *)
Lemma ms64_of_ticks_exact n :
  0 <= n < 2 ^ 49 ->
  (n mod 1000000 <> 0 -> Chrono.ms_of_ticks Chrono.binary64 n = n / 1000000) /\
  n / 1000000 - 1 <= Chrono.ms_of_ticks Chrono.binary64 n <= n / 1000000.
Proof.
  intros Hn.
  destruct (Z.eq_dec n 0) as [-> | Hn0].
  { split; [intros H; exfalso; apply H; reflexivity | vm_compute; split; discriminate]. }
  assert (Hn' : 0 <= n < 2 ^ 63) by lia.
  destruct (proj2 (ms_of_ticks_floor n Hn')) as (t & -> & Ht0 & Ht).
  destruct (fp_milliseconds64_chain n ltac:(lia))
    as (x & y & eta & Hx0 & Hy0 & He & Hxl & Hxu & Hyl & Hyu & Hzl & Hzu).
  destruct (IZR_div_mod n ltac:(lia)) as [Hdm Hr].
  assert (Hn1 : (IZR n <= 562949953421312)%R).
  { apply IZR_le. change 562949953421312 with (2 ^ 49). lia. }
  assert (Hk0 : (0 <= IZR (n / 1000000))%R) by (apply IZR_le, Z.div_pos; lia).
  assert (Hlo : n / 1000000 - 1 <= t).
  { assert (Hlt : (IZR (n / 1000000 - 2) < IZR t)%R) by (rewrite minus_IZR; lra).
    apply lt_IZR in Hlt. lia. }
  assert (Hhi : t <= n / 1000000).
  { assert (Hlt : (IZR t < IZR (n / 1000000 + 1))%R) by (rewrite plus_IZR; lra).
    apply lt_IZR in Hlt. lia. }
  split; [| lia].
  intros Hmod.
  assert (Hr1 : (1 <= IZR (n mod 1000000))%R).
  { apply IZR_le. pose proof (Z.mod_pos_bound n 1000000 ltac:(lia)). lia. }
  assert (Hlt : (IZR (n / 1000000 - 1) < IZR t)%R) by (rewrite minus_IZR; lra).
  apply lt_IZR in Hlt. lia.
Qed.

(** The scope timer's number is within one of the elapsed whole
    milliseconds up to 10^12 ticks (1000 seconds). *)
Lemma ms32_of_ticks_near n :
  0 <= n <= 1000000000000 ->
  n / 1000000 - 1 <= Chrono.ms_of_ticks Chrono.binary32 n <= n / 1000000 + 1.
Proof.
  intros Hn.
  destruct (Z.eq_dec n 0) as [-> | Hn0]; [vm_compute; split; discriminate |].
  assert (Hn' : 0 <= n < 2 ^ 63) by lia.
  destruct (proj1 (ms_of_ticks_floor n Hn')) as (t & -> & Ht0 & Ht).
  destruct (fp_milliseconds32_chain n ltac:(lia))
    as (x & y & eta & Hx0 & Hy0 & He & Hxl & Hxu & Hyl & Hyu & Hzl & Hzu).
  destruct (IZR_div_mod n ltac:(lia)) as [Hdm Hr].
  assert (Hn1 : (IZR n <= 1000000000000)%R) by (apply IZR_le; lia).
  assert (Hk0 : (0 <= IZR (n / 1000000))%R) by (apply IZR_le, Z.div_pos; lia).
  split.
  - assert (Hlt : (IZR (n / 1000000 - 2) < IZR t)%R) by (rewrite minus_IZR; lra).
    apply lt_IZR in Hlt. lia.
  - assert (Hlt : (IZR t < IZR (n / 1000000 + 2))%R) by (rewrite plus_IZR; lra).
    apply lt_IZR in Hlt. lia.
Qed.

(** Less than a millisecond is printed as 0 by both. *)
Lemma ms_of_ticks_sub_millisecond n :
  0 <= n < 1000000 ->
  Chrono.ms_of_ticks Chrono.binary32 n = 0 /\ Chrono.ms_of_ticks Chrono.binary64 n = 0.
Proof.
  intros Hn.
  destruct (Z.eq_dec n 0) as [-> | Hn0]; [split; reflexivity |].
  assert (Hn' : 0 <= n < 2 ^ 63) by lia.
  assert (Hn1 : (IZR n <= 999999)%R) by (apply IZR_le; lia).
  split.
  - destruct (proj1 (ms_of_ticks_floor n Hn')) as (t & -> & Ht0 & Ht).
    destruct (fp_milliseconds32_chain n ltac:(lia))
      as (x & y & eta & Hx0 & Hy0 & He & Hxl & Hxu & Hyl & Hyu & Hzl & Hzu).
    assert (Hlt : (IZR t < IZR 1)%R) by lra.
    apply lt_IZR in Hlt. lia.
  - destruct (proj2 (ms_of_ticks_floor n Hn')) as (t & -> & Ht0 & Ht).
    destruct (fp_milliseconds64_chain n ltac:(lia))
      as (x & y & eta & Hx0 & Hy0 & He & Hxl & Hxu & Hyl & Hyu & Hzl & Hzu).
    assert (Hlt : (IZR t < IZR 1)%R) by lra.
    apply lt_IZR in Hlt. lia.
Qed.

Lemma ms32_of_ticks_ge_1000 n :
  1000000000 <= n < 2 ^ 63 -> 1000 <= Chrono.ms_of_ticks Chrono.binary32 n.
Proof.
  intros Hn. rewrite ms_of_ticks_eq.
  apply (within_ge 1000 200000000000000); [| exact two_e14_lt].
  apply fp_milliseconds32_ge_1000. unfold Chrono.nano_den. lia.
Qed.

(** A second reading before the first is printed as zero or less. *)
Lemma ms_of_ticks_nonpos n :
  - 2 ^ 63 <= n <= 0 ->
  Chrono.ms_of_ticks Chrono.binary32 n <= 0 /\ Chrono.ms_of_ticks Chrono.binary64 n <= 0.
Proof.
  intros Hn.
  destruct (Z.eq_dec n 0) as [-> | Hn0]; [split; vm_compute; discriminate |].
  rewrite !ms_of_ticks_eq.
  assert (Hs : (n <? 0) = true) by (apply Z.ltb_lt; lia).
  split.
  - pose proof (fp_milliseconds32_bounded n ltac:(lia)) as Hw. rewrite Hs in Hw.
    destruct (to_int64_within _ _ _ _ Hw two_e14_lt) as (t & -> & Ht0 & _).
    cbn [cond_Zopp]. lia.
  - pose proof (fp_milliseconds64_bounded n ltac:(lia)) as Hw. rewrite Hs in Hw.
    destruct (to_int64_within _ _ _ _ Hw two_e14_lt) as (t & -> & Ht0 & _).
    cbn [cond_Zopp]. lia.
Qed.

(** ** What the wrapper returns *)

(** C1, where the code departs from it.  For a callable whose return type is
    a reference [T&], bound to an object of the caller's that holds [v],
    [timeit] calls it once and leaves the world of that call with the report
    line added; but what it returns is not what the callable returned: it is
    a reference to the wrapper's own local copy of [v], an object whose
    lifetime has ended when the caller receives the reference. *)
Theorem timeit_returns_dangling_reference
    {exn Args T} (func : Args -> M exn (lvalue_ref T)) (args : Args)
    (w w1 : World) (id : nat) (v : T) :
  func args w = (Returned (Ref (Caller_object id) v), w1) ->
  timeit func args w =
    (Returned (Ref Result_local v), write (report_line (wrapper_report w w1)) w1) /\
  fst (timeit func args w) <> fst (func args w) /\
  (forall r' : lvalue_ref T, fst (timeit func args w) = Returned r' -> dangling r' = true).
Proof.
  intros Hf. rewrite timeit_spec, Hf. cbn [fst]. split; [reflexivity | split].
  - intros H. discriminate H.
  - intros r' H. injection H as <-. reflexivity.
Qed.

Lemma timeit_returns_dangling_reference_witness :
  static_cell tt boot = (Returned (Ref (Caller_object 0) 10), boot) /\
  fst (timeit static_cell tt boot) = Returned (Ref Result_local 10) /\
  fst (timeit static_cell tt boot) <> fst (static_cell tt boot).
Proof.
  split; [reflexivity |].
  pose proof (timeit_returns_dangling_reference static_cell tt boot boot 0%nat 10 eq_refl)
    as [H1 [H2 _]].
  split; [exact (f_equal fst H1) | exact H2].
Defined.

(** C10.  Whatever the declared return type, the outcome of [timeit] is made
    from the outcome of the callable and from nothing else: the value is
    staged in the local before the second reading and handed back after the
    report.  Two runs in which the callable has the same outcome therefore
    have the same outcome, whatever the clocks of the two worlds read. *)
Theorem timeit_result_independent_of_clock
    {exn Args D} {RT : ReturnType D} (func : Args -> M exn D) (args : Args)
    (w w' : World) :
  fst (func args w) = fst (func args w') ->
  fst (timeit func args w) = fst (timeit func args w') /\
  fst (timeit func args w) =
    match fst (func args w) with
    | Returned call => Returned (return_local (copy_init call))
    | Raised e => Raised e
    end.
Proof.
  intros Hf. rewrite !timeit_spec.
  destruct (func args w) as [[r | e] w1], (func args w') as [[r' | e'] w1'];
    cbn [fst] in *; split; congruence.
Qed.

Lemma timeit_result_independent_of_clock_witness :
  fst ((fun _ : unit => @yetAnotherMockDatabaseCall nat) tt boot) =
    fst ((fun _ : unit => @yetAnotherMockDatabaseCall nat) tt
           (mkWorld 1700000000123456789 true (2500000%N :: nil) "")) /\
  fst (timeit (fun _ : unit => @yetAnotherMockDatabaseCall nat) tt boot) =
    fst (timeit (fun _ : unit => @yetAnotherMockDatabaseCall nat) tt
           (mkWorld 1700000000123456789 true (2500000%N :: nil) "")) /\
  fst (timeit (fun _ : unit => @yetAnotherMockDatabaseCall nat) tt boot) = Returned 10.
Proof.
  split; [reflexivity |].
  exact (timeit_result_independent_of_clock
           (fun _ : unit => @yetAnotherMockDatabaseCall nat) tt boot
           (mkWorld 1700000000123456789 true (2500000%N :: nil) "") eq_refl).
Defined.

(** ** The report, read off the output *)

(** C3.  Constructing a [Timing] stores the current reading in [start] and
    writes nothing.  Destroying it stores a second reading in [end], computes
    [end - start], converts it to milliseconds and adds to the output the one
    line [function took <N> ms].  A block that declares a [Timing] therefore
    ends, whether its body returned or threw, with everything its body wrote
    followed by exactly that line; [N] is the truncation of the
    floating-point number of milliseconds between the two readings, within
    one of the elapsed whole milliseconds for a block of up to 1000
    seconds. *)
Theorem scope_timer_reports_once_at_destruction
    {exn A} (this : Timing) (body : M exn A) (w : World) :
  ((exists t0 : Timing,
      Timing_ctor (exn := exn) w = (Returned t0, w) /\
      start t0 = Chrono.wrap64 (clock w)) /\
   cout (snd (Timing_ctor (exn := exn) w)) = cout w) /\
  ((exists t' : Timing,
      fst (Timing_dtor (exn := exn) this w) = Returned t' /\
      start t' = start this /\
      end_ t' = Chrono.wrap64 (clock w) /\
      duration t' =
        Chrono.seconds_of_ticks Chrono.binary32 (Chrono.wrap64 (end_ t' - start t'))) /\
   cout (snd (Timing_dtor (exn := exn) this w)) =
     (cout w ++ "function took " ++
      show_int64 (Chrono.ms_of_ticks Chrono.binary32
                    (Chrono.wrap64 (Chrono.wrap64 (clock w) - start this))) ++
      " ms" ++ endl)%string) /\
  (fst (with_Timing body w) = fst (body w) /\
   cout (snd (with_Timing body w)) =
     (cout (snd (body w)) ++ "function took " ++
      show_int64 (timer_report w (snd (body w))) ++ " ms" ++ endl)%string /\
   truncates_to (fp_value (timer_fp_ms w (snd (body w)))) (timer_report w (snd (body w))) /\
   (0 <= clock (snd (body w)) - clock w <= 1000000000000 ->
    (clock (snd (body w)) - clock w) / 1000000 - 1 <= timer_report w (snd (body w))
      <= (clock (snd (body w)) - clock w) / 1000000 + 1)).
Proof.
  split; [| split].
  - rewrite Timing_ctor_spec. split; [| reflexivity].
    eexists. split; reflexivity.
  - rewrite Timing_dtor_spec. split; [| reflexivity].
    eexists. cbn [fst]. split; [reflexivity |]. repeat split.
  - rewrite with_Timing_spec. cbn [fst snd].
    split; [reflexivity | split; [reflexivity | split]].
    + apply timer_report_truncates.
    + intros Hc. unfold timer_report. rewrite wrap64_small by lia.
      apply ms32_of_ticks_near; assumption.
Qed.

Lemma scope_timer_reports_once_at_destruction_witness :
  cout (snd (Timing_ctor (exn := nat) boot)) = ""%string /\
  cout (snd (Timing_dtor (exn := nat) (mkTiming 1000000 0 (S754_zero false))
               (mkWorld 6500000 true nil "so far "))) =
    ("so far function took 5 ms" ++ endl)%string /\
  cout (snd (with_Timing (exn := nat) (cout_put "work " ;; sleep_for 5000000) boot)) =
    ("work function took 5 ms" ++ endl)%string /\
  5 - 1 <= timer_report boot (mkWorld 5000000 true nil "work ") <= 5 + 1.
Proof.
  pose proof (scope_timer_reports_once_at_destruction (exn := nat)
                (mkTiming 1000000 0 (S754_zero false))
                (cout_put "work " ;; sleep_for 5000000) boot) as [[_ H1] [_ [_ [H3 [_ H4]]]]].
  pose proof (scope_timer_reports_once_at_destruction (exn := nat)
                (mkTiming 1000000 0 (S754_zero false))
                (ret tt) (mkWorld 6500000 true nil "so far ")) as [_ [[_ H2] _]].
  split; [exact H1 | split; [exact H2 | split; [exact H3 |]]].
  apply H4. cbn. lia.
Defined.

(** C4.  When a callable of return type [void] returns, the [void] overload
    of [timeit] returns without a value; the world it leaves is the one a
    single call of the callable leaves, with one line added to the output:
    [function took <N> ms], where [N] is the truncation of the floating-point
    number of milliseconds between the readings before and after the call,
    within one of the elapsed whole milliseconds. *)
Theorem timeit_void_returns_nothing
    {exn Args} (func : Args -> M exn unit) (args : Args) (w w1 : World) :
  func args w = (Returned tt, w1) ->
  timeit_void func args w = (Returned tt, write (report_line (wrapper_report w w1)) w1) /\
  cout (snd (timeit_void func args w)) =
    (cout w1 ++ "function took " ++ show_int64 (wrapper_report w w1) ++ " ms" ++ endl)%string /\
  truncates_to (fp_value (wrapper_fp_ms w w1)) (wrapper_report w w1) /\
  (0 <= clock w1 - clock w < 2 ^ 63 ->
   (clock w1 - clock w) / 1000000 - 1 <= wrapper_report w w1
     <= (clock w1 - clock w) / 1000000 + 1).
Proof.
  intros Hf. rewrite timeit_void_spec, Hf. cbn [snd].
  split; [reflexivity | split; [reflexivity | split]].
  - apply wrapper_report_truncates.
  - intros Hc. unfold wrapper_report. rewrite wrap64_small by lia.
    apply ms64_of_ticks_near; assumption.
Qed.

Lemma timeit_void_returns_nothing_witness :
  (fun _ : unit => @anotherMockDatabaseCall nat) tt boot =
    (Returned tt, snd (@anotherMockDatabaseCall nat boot)) /\
  fst (timeit_void (fun _ : unit => @anotherMockDatabaseCall nat) tt boot) = Returned tt /\
  cout (snd (timeit_void (fun _ : unit => @anotherMockDatabaseCall nat) tt boot)) =
    ("Starting the mock database call" ++ endl ++
     "Ending the mock database call" ++ endl ++
     "function took 1000 ms" ++ endl)%string.
Proof.
  split; [reflexivity |].
  pose proof (timeit_void_returns_nothing (fun _ : unit => @anotherMockDatabaseCall nat) tt boot
                (snd (@anotherMockDatabaseCall nat boot)) eq_refl) as [H1 [H2 _]].
  split; [exact (f_equal fst H1) | exact H2].
Defined.

(** C6, as the spec has it, fails: the clock the code reads is
    [high_resolution_clock], which the library does not promise to be steady,
    and nothing in the code keeps the difference of two readings from being
    negative.  When the clock is set back by 2500000 ticks during the call or
    the block, the wrapper and the scope timer print [function took -2 ms]. *)
Lemma report_can_be_negative :
  ~ (forall (funcv : unit -> M nat unit) (w w2 : World) (N : Z),
       funcv tt w = (Returned tt, w2) ->
       cout (snd (timeit_void funcv tt w)) =
         (cout w2 ++ "function took " ++ show_int64 N ++ " ms" ++ endl)%string ->
       0 <= N) /\
  ~ (forall (body : M nat unit) (w : World) (N : Z),
       cout (snd (with_Timing body w)) =
         (cout (snd (body w)) ++ "function took " ++ show_int64 N ++ " ms" ++ endl)%string ->
       0 <= N) /\
  cout (snd (timeit_void (exn := nat) (adjust_clock (- 2500000)) tt
               (mkWorld 1700000000000000000 true nil ""))) =
    ("function took -2 ms" ++ endl)%string /\
  cout (snd (with_Timing (exn := nat) (adjust_clock (- 2500000) tt)
               (mkWorld 1700000000000000000 true nil ""))) =
    ("function took -2 ms" ++ endl)%string.
Proof.
  split; [| split; [| split; reflexivity]]; intros H.
  - specialize (H (adjust_clock (- 2500000)) (mkWorld 1700000000000000000 true nil "")
                  (mkWorld 1699999999997500000 true nil "") (- 2) eq_refl eq_refl).
    lia.
  - specialize (H (adjust_clock (- 2500000) tt) (mkWorld 1700000000000000000 true nil "")
                  (- 2) eq_refl).
    lia.
Qed.

(** C6, as the code has it.  When the second reading is not before the first
    (and the time between them fits the 64-bit count), the number on the
    line written by the scope timer and by both overloads of the wrapper is
    not negative. *)
Theorem reported_duration_nonneg
    {exn A Args R} (body : M exn A) (func : Args -> M exn R)
    (funcv : Args -> M exn unit) (args : Args) (w w1 w2 : World) (r : R) :
  0 <= clock (snd (body w)) - clock w < 2 ^ 63 ->
  func args w = (Returned r, w1) ->
  0 <= clock w1 - clock w < 2 ^ 63 ->
  funcv args w = (Returned tt, w2) ->
  0 <= clock w2 - clock w < 2 ^ 63 ->
  (cout (snd (with_Timing body w)) =
     (cout (snd (body w)) ++ "function took " ++
      show_int64 (timer_report w (snd (body w))) ++ " ms" ++ endl)%string /\
   truncates_to (fp_value (timer_fp_ms w (snd (body w)))) (timer_report w (snd (body w))) /\
   0 <= timer_report w (snd (body w))) /\
  (cout (snd (timeit func args w)) =
     (cout w1 ++ "function took " ++ show_int64 (wrapper_report w w1) ++ " ms" ++ endl)%string /\
   truncates_to (fp_value (wrapper_fp_ms w w1)) (wrapper_report w w1) /\
   0 <= wrapper_report w w1) /\
  (cout (snd (timeit_void funcv args w)) =
     (cout w2 ++ "function took " ++ show_int64 (wrapper_report w w2) ++ " ms" ++ endl)%string /\
   truncates_to (fp_value (wrapper_fp_ms w w2)) (wrapper_report w w2) /\
   0 <= wrapper_report w w2).
Proof.
  intros Hb Hf Hc1 Hv Hc2.
  rewrite with_Timing_spec, timeit_spec, timeit_void_spec, Hf, Hv. cbn [snd].
  split; [| split]; (split; [reflexivity | split]).
  - apply timer_report_truncates.
  - unfold timer_report. rewrite wrap64_small by lia. apply (ms_of_ticks_nonneg _ Hb).
  - apply wrapper_report_truncates.
  - unfold wrapper_report. rewrite wrap64_small by lia. apply (ms_of_ticks_nonneg _ Hc1).
  - apply wrapper_report_truncates.
  - unfold wrapper_report. rewrite wrap64_small by lia. apply (ms_of_ticks_nonneg _ Hc2).
Qed.

Lemma reported_duration_nonneg_witness :
  (cout (snd (with_Timing (exn := nat) (sleep_for 999999) boot)) =
     ("function took 0 ms" ++ endl)%string /\
   0 <= timer_report boot (mkWorld 999999 true nil "")) /\
  (cout (snd (timeit (exn := nat) (fun _ : unit => sleep_for 3000000 ;; ret 10) tt boot)) =
     ("function took 3 ms" ++ endl)%string /\
   0 <= wrapper_report boot (mkWorld 3000000 true nil "")) /\
  (cout (snd (timeit_void (exn := nat) (adjust_clock 2500000) tt boot)) =
     ("function took 2 ms" ++ endl)%string /\
   0 <= wrapper_report boot (mkWorld 2500000 true nil "")).
Proof.
  pose proof (reported_duration_nonneg (exn := nat)
                (sleep_for 999999) (fun _ : unit => sleep_for 3000000 ;; ret 10)
                (adjust_clock 2500000) tt boot
                (mkWorld 3000000 true nil "") (mkWorld 2500000 true nil "") 10
                ltac:(cbn; lia) eq_refl ltac:(cbn; lia) eq_refl ltac:(cbn; lia))
    as [[H1 [_ H1']] [[H2 [_ H2']] [H3 [_ H3']]]].
  split; [exact (conj H1 H1') | split; [exact (conj H2 H2') | exact (conj H3 H3')]].
Defined.

(** ** More on the wrapper, the scope timer, the workloads and [main] *)

(** X1.  Whatever the callable does, as long as the clock has not gone
    backward, the number either overload of [timeit] prints is within one of
    the elapsed time in whole milliseconds. *)
Theorem timeit_report_within_one_ms
    {exn Args R} (func : Args -> M exn R) (funcv : Args -> M exn unit)
    (args : Args) (w w1 w2 : World) (r : R) :
  func args w = (Returned r, w1) ->
  0 <= clock w1 - clock w < 2 ^ 63 ->
  funcv args w = (Returned tt, w2) ->
  0 <= clock w2 - clock w < 2 ^ 63 ->
  (snd (timeit func args w) = write (report_line (wrapper_report w w1)) w1 /\
   (clock w1 - clock w) / 1000000 - 1 <= wrapper_report w w1
     <= (clock w1 - clock w) / 1000000 + 1) /\
  (snd (timeit_void funcv args w) = write (report_line (wrapper_report w w2)) w2 /\
   (clock w2 - clock w) / 1000000 - 1 <= wrapper_report w w2
     <= (clock w2 - clock w) / 1000000 + 1).
Proof.
  intros Hf Hc1 Hv Hc2.
  rewrite timeit_spec, timeit_void_spec, Hf, Hv. cbn [snd].
  unfold wrapper_report. rewrite !wrap64_small by lia.
  split; (split; [reflexivity | apply ms64_of_ticks_near; assumption]).
Qed.

Lemma timeit_report_within_one_ms_witness :
  1001 - 1 <= wrapper_report boot (mkWorld 1001000000 true nil "") <= 1001 + 1 /\
  2 - 1 <= wrapper_report boot (mkWorld 2999999 true nil "") <= 2 + 1.
Proof.
  pose proof (timeit_report_within_one_ms (exn := nat)
                (fun _ : unit => sleep_for 1001000000 ;; ret 10)
                (fun _ : unit => sleep_for 2999999) tt boot
                (mkWorld 1001000000 true nil "") (mkWorld 2999999 true nil "") 10
                eq_refl ltac:(cbn; lia) eq_refl ltac:(cbn; lia))
    as [[_ H1] [_ H2]].
  split; [exact H1 | exact H2].
Defined.

(** X2.  For elapsed times below 2^49 ticks (about six and a half days) the
    number [timeit] prints is exactly the elapsed time truncated to whole
    milliseconds, unless the elapsed time is itself a whole number of
    milliseconds: then it is that number or one less. *)
Theorem timeit_report_exact_off_whole_milliseconds
    {exn Args R} (func : Args -> M exn R) (args : Args) (w w1 : World) (r : R) :
  func args w = (Returned r, w1) ->
  0 <= clock w1 - clock w < 2 ^ 49 ->
  snd (timeit func args w) = write (report_line (wrapper_report w w1)) w1 /\
  ((clock w1 - clock w) mod 1000000 <> 0 ->
   wrapper_report w w1 = (clock w1 - clock w) / 1000000) /\
  (clock w1 - clock w) / 1000000 - 1 <= wrapper_report w w1 <= (clock w1 - clock w) / 1000000.
Proof.
  intros Hf Hc.
  rewrite timeit_spec, Hf. cbn [snd].
  unfold wrapper_report. rewrite wrap64_small by lia.
  split; [reflexivity | apply ms64_of_ticks_exact; assumption].
Qed.

Lemma timeit_report_exact_off_whole_milliseconds_witness :
  wrapper_report boot (mkWorld 1001000001 true nil "") = 1001.
Proof.
  pose proof (timeit_report_exact_off_whole_milliseconds (exn := nat)
                (fun _ : unit => sleep_for 1001000001 ;; ret 10) tt boot
                (mkWorld 1001000001 true nil "") 10 eq_refl ltac:(cbn; lia))
    as [_ [H _]].
  apply H. cbn. discriminate.
Defined.

(** X3.  For a block that lasts at most 10^12 ticks (1000 seconds) the
    number the scope timer prints is within one of the elapsed time in whole
    milliseconds. *)
Theorem scope_timer_report_within_one_ms
    {exn A} (body : M exn A) (w : World) :
  0 <= clock (snd (body w)) - clock w <= 1000000000000 ->
  snd (with_Timing body w) =
    write (report_line (timer_report w (snd (body w)))) (snd (body w)) /\
  (clock (snd (body w)) - clock w) / 1000000 - 1 <= timer_report w (snd (body w))
    <= (clock (snd (body w)) - clock w) / 1000000 + 1.
Proof.
  intros Hc. rewrite with_Timing_spec. cbn [snd].
  unfold timer_report. rewrite wrap64_small by lia.
  split; [reflexivity | apply ms32_of_ticks_near; assumption].
Qed.

Lemma scope_timer_report_within_one_ms_witness :
  16 - 1 <= timer_report boot (mkWorld 16999999 true nil "") <= 16 + 1.
Proof.
  exact (proj2 (scope_timer_report_within_one_ms (exn := nat) (sleep_for 16999999) boot
                  ltac:(cbn; lia))).
Defined.

(** X4.  A block or a call that takes less than a millisecond is reported
    as [function took 0 ms], by the scope timer and by the wrapper. *)
Theorem sub_millisecond_reports_zero
    {exn A Args R} (body : M exn A) (func : Args -> M exn R) (args : Args)
    (w w1 : World) (r : R) :
  0 <= clock (snd (body w)) - clock w < 1000000 ->
  func args w = (Returned r, w1) ->
  0 <= clock w1 - clock w < 1000000 ->
  cout (snd (with_Timing body w)) =
    (cout (snd (body w)) ++ "function took 0 ms" ++ endl)%string /\
  cout (snd (timeit func args w)) = (cout w1 ++ "function took 0 ms" ++ endl)%string.
Proof.
  intros Hb Hf Hc.
  rewrite with_Timing_spec, timeit_spec, Hf. cbn [snd write cout].
  unfold timer_report, wrapper_report. rewrite !wrap64_small by lia.
  rewrite (proj1 (ms_of_ticks_sub_millisecond _ Hb)).
  rewrite (proj2 (ms_of_ticks_sub_millisecond _ Hc)).
  split; reflexivity.
Qed.

Lemma sub_millisecond_reports_zero_witness :
  cout (snd (with_Timing (exn := nat) (sleep_for 999999) boot)) =
    ("function took 0 ms" ++ endl)%string /\
  cout (snd (timeit (exn := nat) (fun _ : unit => ret 10) tt boot)) =
    ("function took 0 ms" ++ endl)%string.
Proof.
  exact (sub_millisecond_reports_zero (exn := nat) (sleep_for 999999)
           (fun _ : unit => ret 10) tt boot boot 10
           ltac:(cbn; lia) eq_refl ltac:(cbn; lia)).
Defined.

(** X5.  A block with a [Timing] that lasts at least one second is reported
    as at least 1000 milliseconds, although on the way the tick count is
    rounded to 24 bits. *)
Theorem scope_timer_at_least_1000_after_one_second
    {exn A} (body : M exn A) (w : World) :
  one_second <= clock (snd (body w)) - clock w < 2 ^ 63 ->
  snd (with_Timing body w) =
    write (report_line (timer_report w (snd (body w)))) (snd (body w)) /\
  1000 <= timer_report w (snd (body w)).
Proof.
  unfold one_second, Chrono.nano_den. intros Hc. rewrite with_Timing_spec. cbn [snd].
  unfold timer_report. rewrite wrap64_small by lia.
  split; [reflexivity | apply ms32_of_ticks_ge_1000; lia].
Qed.

Lemma scope_timer_at_least_1000_after_one_second_witness :
  1000 <= timer_report boot (mkWorld 1000000001 true nil "").
Proof.
  exact (proj2 (scope_timer_at_least_1000_after_one_second (exn := nat)
                  (sleep_for 1000000001) boot ltac:(cbn; lia))).
Defined.

(** X6.  When the second reading is before the first (the clock was set
    back during the call or the block), the number printed is zero or
    negative: the wrapper and the scope timer do not clamp or reject it. *)
Theorem backward_clock_reports_nonpositive
    {exn A Args R} (body : M exn A) (func : Args -> M exn R) (args : Args)
    (w w1 : World) (r : R) :
  - 2 ^ 63 <= clock (snd (body w)) - clock w <= 0 ->
  func args w = (Returned r, w1) ->
  - 2 ^ 63 <= clock w1 - clock w <= 0 ->
  (snd (with_Timing body w) =
     write (report_line (timer_report w (snd (body w)))) (snd (body w)) /\
   timer_report w (snd (body w)) <= 0) /\
  (snd (timeit func args w) = write (report_line (wrapper_report w w1)) w1 /\
   wrapper_report w w1 <= 0).
Proof.
  intros Hb Hf Hc. rewrite with_Timing_spec, timeit_spec, Hf. cbn [snd].
  unfold timer_report, wrapper_report. rewrite !wrap64_small by lia.
  split; (split; [reflexivity |]).
  - apply (ms_of_ticks_nonpos _ Hb).
  - apply (ms_of_ticks_nonpos _ Hc).
Qed.

Lemma backward_clock_reports_nonpositive_witness :
  cout (snd (with_Timing (exn := nat) (adjust_clock (- 2500000) tt)
               (mkWorld 1700000000000000000 true nil ""))) =
    ("function took -2 ms" ++ endl)%string /\
  wrapper_report (mkWorld 1700000000000000000 true nil "")
    (mkWorld 1699999999997500000 true nil "") <= 0.
Proof.
  pose proof (backward_clock_reports_nonpositive (exn := nat)
                (adjust_clock (- 2500000) tt)
                (fun u : unit => adjust_clock (- 2500000) u ;; ret 10)
                tt (mkWorld 1700000000000000000 true nil "")
                (mkWorld 1699999999997500000 true nil "") 10
                ltac:(cbn; lia) eq_refl ltac:(cbn; lia))
    as [[H1 _] [_ H2]].
  split; [exact (f_equal cout H1) | exact H2].
Defined.

(** X8.  The two techniques differ when the timed code throws: the scope
    timer still writes its line, with the time up to the throw, before the
    exception leaves the block; the wrapper writes nothing. *)
Theorem scope_timer_reports_on_exception_wrapper_does_not
    {exn Args R} (func : Args -> M exn R) (args : Args) (w w1 : World) (e : exn) :
  func args w = (Raised e, w1) ->
  with_Timing (func args) w = (Raised e, write (report_line (timer_report w w1)) w1) /\
  timeit func args w = (Raised e, w1).
Proof.
  intros Hf. rewrite with_Timing_spec, timeit_spec, Hf. split; reflexivity.
Qed.

Lemma scope_timer_reports_on_exception_wrapper_does_not_witness :
  cout (snd (with_Timing (failing_call tt) boot)) =
    ("about to fail" ++ "function took 0 ms" ++ endl)%string /\
  cout (snd (timeit failing_call tt boot)) = "about to fail"%string.
Proof.
  pose proof (scope_timer_reports_on_exception_wrapper_does_not failing_call tt boot
                (write "about to fail" boot) 7%nat eq_refl) as [H1 H2].
  split; [exact (f_equal (fun p => cout (snd p)) H1) | exact (f_equal (fun p => cout (snd p)) H2)].
Defined.

(** *** The workloads *)

Lemma nth_0_hd {A} (l : list A) (d : A) : nth 0 l d = hd d l.
Proof. destruct l; reflexivity. Qed.

Lemma nth_S_tl {A} (i : nat) (l : list A) (d : A) : nth (S i) l d = nth i (tl l) d.
Proof. destruct l; [destruct i; reflexivity | reflexivity]. Qed.

Lemma skipn_3_tl {A} (l : list A) : skipn 3 l = tl (tl (tl l)).
Proof. destruct l as [| a [| b [| c l]]]; reflexivity. Qed.

(** [sleep_for] of a positive duration with the clock available. *)
Lemma sleep_for_available {exn} (d : Z) (w : World) :
  0 < d ->
  clock_available w = true ->
  sleep_for (exn := exn) d w =
    (Returned tt,
     World_of (clock w + d + late w 0) true (tl (oversleep w)) (cout w) (unset w)).
Proof.
  intros Hd Hav. unfold sleep_for, late.
  destruct (Z.leb_spec d 0) as [Hle | _]; [lia |].
  rewrite Hav, nth_0_hd. reflexivity.
Qed.

Lemma anotherMockDatabaseCall_spec {exn} w :
  clock_available w = true ->
  @anotherMockDatabaseCall exn w =
    (Returned tt,
     World_of (clock w + one_second + late w 0) true (tl (oversleep w))
       (cout w ++ mock_messages) (unset w)).
Proof.
  intros Hav.
  unfold anotherMockDatabaseCall, bind, cout_put.
  rewrite sleep_for_available by (cbn; first [reflexivity | exact Hav]).
  unfold ret, write, late, mock_messages.
  cbn [clock clock_available oversleep cout unset].
  rewrite !string_append_assoc. reflexivity.
Qed.

Lemma yetAnotherMockDatabaseCall_spec {exn} w :
  clock_available w = true ->
  @yetAnotherMockDatabaseCall exn w =
    (Returned 10,
     World_of (clock w + one_second + late w 0) true (tl (oversleep w))
       (cout w ++ mock_messages) (unset w)).
Proof.
  intros Hav.
  unfold yetAnotherMockDatabaseCall, bind, cout_put.
  rewrite sleep_for_available by (cbn; first [reflexivity | exact Hav]).
  unfold ret, write, late, mock_messages.
  cbn [clock clock_available oversleep cout unset].
  rewrite !string_append_assoc. reflexivity.
Qed.

Lemma mockDatabaseCall_unfold {exn} :
  @mockDatabaseCall exn = with_Timing anotherMockDatabaseCall.
Proof. reflexivity. Qed.






